(** * Kalpa Raycast extension: client layer

    A shallow embedding of the extension's client layer and the properties
    proved about it:

    - [utils/auth.ts]: the token guard ([getApiToken], [parseJwtClaims],
      [tokenIsExpired], [ensureValidTokenOrToast]);
    - [utils/kalpa-client.ts]: the request pipeline ([fetchWithTimeout],
      [fetchWithRetry], [query], [mutation], [linksQuery], ...);
    - [utils/helpers.ts]: [extractKeywords], [matchesSearch],
      [sortByRelevance];
    - [hooks/useLinks.ts]: the aggregation [useAllLinks].

    Modelling conventions.
    - A JavaScript string is a [string] of 8-bit characters; case mapping and
      the whitespace class are the ASCII ones (characters above 127 are
      caseless and not whitespace).
    - Timestamps, the clock and delays are integers ([Z]); a JSON number is a
      rational ([Q]).
    - Asynchronous code is sequential state passing over a [World] that holds
      the preferences, the clock, the number of network calls made so far and
      the chronological log of observable effects.  The network is an oracle
      indexed by the call number.
    - [JSON.parse], [Buffer.from(_, "base64").toString("utf8")] and [String(_)]
      on non-primitive values belong to the platform, not to the repository:
      they are parameters of the development ([Platform]). *)

From Stdlib Require Import String Ascii ZArith QArith List Lia Permutation Sorted.
From Stdlib Require Import DecimalString.
From stdpp Require Import gmap strings list sorting.

#[local] Set Warnings "-register-all,-clear-no-such-hyp,-abstract-large-number".

Local Open Scope string_scope.
Local Open Scope list_scope.
Local Open Scope Z_scope.

(** ** JavaScript strings *)

Module JsString.

Definition is_upper (c : ascii) : bool :=
  let n := nat_of_ascii c in (65 <=? n)%nat && (n <=? 90)%nat.

Definition lower_char (c : ascii) : ascii :=
  if is_upper c then ascii_of_nat (nat_of_ascii c + 32) else c.

(** [s.toLowerCase()] *)
Fixpoint toLowerCase (s : string) : string :=
  match s with
  | EmptyString => EmptyString
  | String c s' => String (lower_char c) (toLowerCase s')
  end.

(** The class [\s] restricted to ASCII: tab, line feed, vertical tab, form
    feed, carriage return, space. *)
Definition is_space (c : ascii) : bool :=
  let n := nat_of_ascii c in
  ((9 <=? n)%nat && (n <=? 13)%nat) || (n =? 32)%nat.

(** [hay.startsWith(needle)] *)
Definition startsWith (hay needle : string) : bool := String.prefix needle hay.

(** [hay.includes(needle)] *)
Fixpoint includes (hay needle : string) : bool :=
  String.prefix needle hay ||
  match hay with
  | EmptyString => false
  | String _ hay' => includes hay' needle
  end.

(** [a === b] on strings *)
Definition eqb (a b : string) : bool := String.eqb a b.

(** [s.split(sep)] for a separator of one character. *)
Fixpoint split_char (sep : ascii) (s : string) : list string :=
  match s with
  | EmptyString => [EmptyString]
  | String c s' =>
      if Ascii.eqb c sep then EmptyString :: split_char sep s'
      else match split_char sep s' with
           | tok :: rest => String c tok :: rest
           | [] => [String c EmptyString]
           end
  end.

(** [s.split(/\s+/)]: [prev] tells whether the previous character belonged
    to a run of whitespace; the head of the result is the token under
    construction. *)
Fixpoint split_ws_from (prev : bool) (s : string) : list string :=
  match s with
  | EmptyString => [EmptyString]
  | String c s' =>
      if is_space c then
        if prev then split_ws_from true s'
        else EmptyString :: split_ws_from true s'
      else match split_ws_from false s' with
           | tok :: rest => String c tok :: rest
           | [] => [String c EmptyString]
           end
  end.

Definition split_ws (s : string) : list string := split_ws_from false s.

(** [s.replace(/c/g, d)] for single characters. *)
Fixpoint replace_all_char (c d : ascii) (s : string) : string :=
  match s with
  | EmptyString => EmptyString
  | String x s' => String (if Ascii.eqb x c then d else x) (replace_all_char c d s')
  end.

Fixpoint drop (n : nat) (s : string) : string :=
  match n, s with
  | O, _ => s
  | S n', String _ s' => drop n' s'
  | S _, EmptyString => EmptyString
  end.

Fixpoint trim_start (s : string) : string :=
  match s with
  | String c s' => if is_space c then trim_start s' else s
  | EmptyString => EmptyString
  end.

(** Removes trailing whitespace: a whitespace character is dropped when
    everything after it has been dropped. *)
Fixpoint trim_end (s : string) : string :=
  match s with
  | EmptyString => EmptyString
  | String c s' =>
      match trim_end s' with
      | EmptyString => if is_space c then EmptyString else String c EmptyString
      | t => String c t
      end
  end.

(** [s.trim()] *)
Definition trim (s : string) : string := trim_end (trim_start s).

(** Template-literal rendering of a non-negative integer. *)
Definition of_nat (n : nat) : string := NilZero.string_of_uint (Nat.to_uint n).

(** JavaScript truthiness of a string. *)
Definition truthy (s : string) : bool :=
  match s with EmptyString => false | _ => true end.

End JsString.

(** ** JavaScript values, errors and results *)

(** A value as [JSON.parse] produces it, plus [undefined]. An object is the
    list of its own properties, one entry per key. *)
Inductive JSValue : Type :=
  | JUndefined
  | JNull
  | JBool (b : bool)
  | JNum (q : Q)
  | JStr (s : string)
  | JArr (items : list JSValue)
  | JObj (fields : list (string * JSValue)).

(** An instance of [Error]: its [name] and its [message]. *)
Record JSError : Type := mkError { err_name : string; err_message : string }.

(** [new Error(message)] *)
Definition new_Error (message : string) : JSError := mkError "Error" message.

(** What a [throw] carries: an [Error] instance or any other value. *)
Inductive Thrown : Type :=
  | ThrownError (e : JSError)
  | ThrownValue (v : JSValue).

Inductive Result (A : Type) : Type :=
  | Ok (a : A)
  | Throw (t : Thrown).
Arguments Ok {A} a.
Arguments Throw {A} t.

Definition is_Throw {A} (r : Result A) : bool :=
  match r with Throw _ => true | Ok _ => false end.

(** Truthiness ([!v] is its negation). *)
Definition truthy (v : JSValue) : bool :=
  match v with
  | JUndefined | JNull => false
  | JBool b => b
  | JNum q => negb (Qeq_bool q 0)
  | JStr s => JsString.truthy s
  | JArr _ | JObj _ => true
  end.

Fixpoint assoc (k : string) (fields : list (string * JSValue)) : option JSValue :=
  match fields with
  | [] => None
  | (k', v) :: rest => if String.eqb k k' then Some v else assoc k rest
  end.

(** [v[k]] on a value that is neither [null] nor [undefined]. Only objects
    carry the keys read by this code ("exp", "details", "error", "value",
    "universes"); on any other value the read gives [undefined]. *)
Definition prop_of (v : JSValue) (k : string) : JSValue :=
  match v with
  | JObj fields => match assoc k fields with Some x => x | None => JUndefined end
  | _ => JUndefined
  end.

(** [v.k], which throws a [TypeError] on [null] and [undefined]. *)
Definition js_get (v : JSValue) (k : string) : Result JSValue :=
  match v with
  | JNull | JUndefined =>
      Throw (ThrownError (mkError "TypeError" ("Cannot read properties (reading '" ++ k ++ "')")))
  | _ => Ok (prop_of v k)
  end.

(** [a || b] *)
Definition js_or (a b : JSValue) : JSValue := if truthy a then a else b.

(** ** Platform and network *)

(** The part of the JavaScript platform the client calls into. *)
Record Platform : Type := {
  (** [JSON.parse(text)]; throws a [SyntaxError] on malformed text. *)
  JSON_parse : string -> Result JSValue;
  (** [Buffer.from(text, "base64").toString("utf8")] *)
  Buffer_base64_utf8 : string -> Result string;
  (** [String(v)] for a number, an array or an object. *)
  display : JSValue -> string
}.

(** [String(v)] *)
Definition js_String (P : Platform) (v : JSValue) : string :=
  match v with
  | JStr s => s
  | JUndefined => "undefined"
  | JNull => "null"
  | JBool true => "true"
  | JBool false => "false"
  | _ => display P v
  end.

Record Request : Type := {
  req_url : string;
  req_method : string;
  req_headers : list (string * string);
  (** the value handed to [JSON.stringify], when the request has a body *)
  req_body : option JSValue
}.

Record Response : Type := { resp_status : nat; resp_text : string }.

(** [response.ok] *)
Definition resp_ok (r : Response) : bool :=
  (200 <=? resp_status r)%nat && (resp_status r <=? 299)%nat.

(** The outcome of the [n]-th call to [fetch] (counted from 0 over the whole
    run), raced against the timeout: a response of any status, or a throw
    (transport failure, or the abort raised when the timeout fires). *)
Definition Network : Type := nat -> Request -> Z -> Result Response.

(** ** Observable effects and the world *)

Inductive ToastStyle : Type := Failure | Success | Animated.

Record ToastAction : Type := {
  action_title : string;
  (** the URL that [onAction] opens *)
  action_open : string
}.

Record Toast : Type := {
  toast_style : ToastStyle;
  toast_title : string;
  toast_message : string;
  toast_primaryAction : option ToastAction
}.

Inductive Event : Type :=
  | EvFetch (req : Request) (timeout : Z)
  | EvSleep (ms : Z)
  | EvToast (t : Toast)
  | EvConsoleError (label : string) (t : Thrown).

Record World : Type := mkWorld {
  (** [getPreferenceValues().apiToken] *)
  prefs_apiToken : option string;
  (** [Date.now()] *)
  clock_ms : Z;
  (** number of [fetch] calls made so far *)
  fetch_count : nat;
  (** effects so far, oldest first *)
  events : list Event
}.

Definition log (e : Event) (w : World) : World :=
  mkWorld (prefs_apiToken w) (clock_ms w) (fetch_count w) (events w ++ [e]).

(** ** The computation monad: state passing with exceptions *)

Definition M (A : Type) : Type := World -> Result A * World.

Definition ret {A} (a : A) : M A := fun w => (Ok a, w).
Definition throw {A} (t : Thrown) : M A := fun w => (Throw t, w).
Definition bind {A B} (m : M A) (k : A -> M B) : M B :=
  fun w => match m w with
           | (Ok a, w') => k a w'
           | (Throw t, w') => (Throw t, w')
           end.
(** [try { m } catch (t) { h t }] *)
Definition try_catch {A} (m : M A) (h : Thrown -> M A) : M A :=
  fun w => match m w with
           | (Ok a, w') => (Ok a, w')
           | (Throw t, w') => h t w'
           end.
Definition lift {A} (r : Result A) : M A := fun w => (r, w).

Notation "'let*' x ':=' m 'in' k" := (bind m (fun x => k))
  (at level 10, x name, m at level 100, k at level 200).
Notation "m ';;' k" := (bind m (fun _ => k))
  (at level 100, k at level 200, right associativity).

(** [await showToast(options)] *)
Definition showToast (t : Toast) : M unit := fun w => (Ok tt, log (EvToast t) w).

(** [await new Promise((resolve) => setTimeout(resolve, ms))]: the timer is
    taken to fire on time, so the clock moves on by [ms]. *)
Definition sleep (ms : Z) : M unit :=
  fun w => (Ok tt, mkWorld (prefs_apiToken w) (clock_ms w + ms) (fetch_count w)
                           (events w ++ [EvSleep ms])).

(** [console.error(label, t)] *)
Definition console_error (label : string) (t : Thrown) : M unit :=
  fun w => (Ok tt, log (EvConsoleError label t) w).

(** ** utils/auth.ts: the token guard *)

Section Auth.
Context (P : Platform).

(** [getApiToken()] *)
Definition getApiToken (w : World) : option string :=
  match prefs_apiToken w with
  | None => None
  | Some raw =>
      let token := JsString.trim raw in
      if JsString.truthy token && (0 <? String.length token)%nat
      then Some token else None
  end.

(** [while (base64.length % 4) base64 += "="]: the loop runs at most three
    times (see [pad4_aligned]). *)
Fixpoint pad4_loop (fuel : nat) (base64 : string) : string :=
  match fuel with
  | O => base64
  | S fuel' =>
      if (String.length base64 mod 4 =? 0)%nat then base64
      else pad4_loop fuel' (base64 ++ "=")
  end.

Definition pad4 (base64 : string) : string := pad4_loop 3 base64.

(** [base64UrlDecode(segment)]; [None] is [null]. *)
Definition base64UrlDecode (segment : string) : option string :=
  let base64 :=
    JsString.replace_all_char "_" "/" (JsString.replace_all_char "-" "+" segment) in
  let base64 := pad4 base64 in
  match Buffer_base64_utf8 P base64 with
  | Ok s => Some s
  | Throw _ => None
  end.

(** [parseJwtClaims(token)]; [JNull] is [null]. *)
Definition parseJwtClaims (token : string) : JSValue :=
  let parts := JsString.split_char "." token in
  if (length parts <? 2)%nat then JNull
  else
    match base64UrlDecode (nth 1 parts "") with
    | None => JNull
    | Some decoded =>
        if negb (JsString.truthy decoded) then JNull
        else match JSON_parse P decoded with
             | Ok v => v
             | Throw _ => JNull
             end
    end.

(** [Math.floor(Date.now() / 1000)] *)
Definition now_seconds (w : World) : Z := clock_ms w / 1000.

(** [tokenIsExpired(token)]; [None] is [null]. *)
Definition tokenIsExpired (token : string) (w : World) : option bool :=
  let claims := parseJwtClaims token in
  if negb (truthy claims) then None
  else
    match prop_of claims "exp" with
    | JNum exp => Some (Qle_bool exp (inject_Z (now_seconds w)))
    | _ => None
    end.

Definition missing_token_toast : Toast :=
  {| toast_style := Failure;
     toast_title := "Missing API token";
     toast_message := "Set your API token in the Kalpa Raycast extension preferences.";
     toast_primaryAction := None |}.

Definition expired_token_toast : Toast :=
  {| toast_style := Failure;
     toast_title := "API token expired";
     toast_message :=
       "Get a fresh token from the Kalpa web app (open /api/clerk-token) and paste it into Raycast preferences.";
     toast_primaryAction := None |}.

(** [ensureValidTokenOrToast()]; [None] is [null]. *)
Definition ensureValidTokenOrToast : M (option string) :=
  fun w =>
    match getApiToken w with
    | None => (showToast missing_token_toast ;; ret None) w
    | Some token =>
        match tokenIsExpired token w with
        | Some true => (showToast expired_token_toast ;; ret None) w
        | _ => ret (Some token) w
        end
    end.

End Auth.

(** ** types.ts: the data model *)

Inductive LinkType : Type := page | youtube | codepen.

(** The string a [LinkType] is at run time. *)
Definition LinkType_label (t : LinkType) : string :=
  match t with page => "page" | youtube => "youtube" | codepen => "codepen" end.

Record KalpaTag : Type := {
  tag_id : string;
  tag_creationTime : Z;
  tag_name : string;
  tag_color : string
}.

Record KalpaUniverse : Type := {
  universe_id : string;
  universe_creationTime : Z;
  universe_name : string;
  universe_color : string;
  universe_linkCount : option Z
}.

(** [KalpaLink], with the fields the client layer reads (the screenshot,
    reading-time, CodePen and video display fields are left out). *)
Record KalpaLink : Type := {
  link_id : string;
  creationTime : Z;
  url : string;
  title : string;
  domain : string;
  linkType : option LinkType;
  is_read : bool;
  is_archived : bool;
  summary_preview : option string;
  tags : option (list KalpaTag);
  universes : option (list KalpaUniverse)
}.

Record PaginatedResponse : Type := {
  resp_page : list KalpaLink;
  isDone : bool;
  continueCursor : string
}.

Record LinkSearchOptions : Type := {
  opt_search : option string;
  opt_universeId : option string;
  opt_tagId : option string;
  opt_hideRead : option bool;
  opt_hideArchived : option bool;
  opt_numItems : option Z
}.

(** ** Arrays: [Array.prototype.sort] *)

Section JsSort.
Context {A : Type} (compareFn : A -> A -> Z).

(** Puts [x], which precedes every element of the sorted [l] in the original
    array, at its place: after the elements that must come before it
    ([compareFn x y > 0]) and before the first element it ties with or
    beats. *)
Fixpoint sort_insert (x : A) (l : list A) : list A :=
  match l with
  | [] => [x]
  | y :: l' => if 0 <? compareFn x y then y :: sort_insert x l' else x :: y :: l'
  end.

(** [arr.sort(compareFn)] as a function of the array's contents. The
    language requires the sort to be stable; for a consistent comparator
    the result is then determined, and this insertion sort computes it. *)
Fixpoint js_sort (l : list A) : list A :=
  match l with
  | [] => []
  | x :: l' => sort_insert x (js_sort l')
  end.

End JsSort.

(** Arrays live in a heap and are handled through references, so that sorting
    in place and copying can be told apart. *)
Abbreviation loc := positive.
Abbreviation Heap := (gmap positive (list KalpaLink)).

(** [[...arr]]: a new array with the same elements. *)
Definition array_spread (arr : loc) (h : Heap) : option (loc * Heap) :=
  match h !! arr with
  | None => None
  | Some elems => let r := fresh (dom h) in Some (r, <[r := elems]> h)
  end.

(** [arr.sort(compareFn)]: sorts in place and returns the same reference. *)
Definition array_sort (compareFn : KalpaLink -> KalpaLink -> Z) (arr : loc) (h : Heap)
  : option (loc * Heap) :=
  match h !! arr with
  | None => None
  | Some elems => Some (arr, <[arr := js_sort compareFn elems]> h)
  end.

(** ** utils/helpers.ts *)

(** [formatDomain(domain)]: [domain.replace(/^www\./, "")] *)
Definition formatDomain (domain : string) : string :=
  if JsString.startsWith domain "www." then JsString.drop 4 domain else domain.

(** [[...new Set(keywords)]]: the first occurrence of each element, in order
    of first occurrence. [seen] holds the elements met so far. *)
Fixpoint dedup_from (seen : list string) (l : list string) : list string :=
  match l with
  | [] => []
  | x :: l' =>
      if existsb (String.eqb x) seen then dedup_from seen l'
      else x :: dedup_from (x :: seen) l'
  end.

Definition dedup (l : list string) : list string := dedup_from [] l.

(** [extractKeywords(link)] *)
Definition extractKeywords (link : KalpaLink) : list string :=
  let keywords := JsString.split_ws (JsString.toLowerCase (title link)) in
  let keywords := keywords ++ [JsString.toLowerCase (formatDomain (domain link))] in
  let keywords :=
    match tags link with
    | Some ts => keywords ++ map (fun t => JsString.toLowerCase (tag_name t)) ts
    | None => keywords
    end in
  let keywords :=
    match universes link with
    | Some us => keywords ++ map (fun u => JsString.toLowerCase (universe_name u)) us
    | None => keywords
    end in
  let keywords :=
    match linkType link with
    | Some t => keywords ++ [LinkType_label t]
    | None => keywords
    end in
  dedup keywords.

(** [matchesSearch(link, query)] *)
Definition matchesSearch (link : KalpaLink) (query : string) : bool :=
  if negb (JsString.truthy query) then true
  else
    let lowerQuery := JsString.toLowerCase query in
    let keywords := extractKeywords link in
    if existsb (fun k => JsString.includes k lowerQuery) keywords then true
    else if JsString.includes (JsString.toLowerCase (title link)) lowerQuery then true
    else if JsString.includes (JsString.toLowerCase (url link)) lowerQuery then true
    else if match summary_preview link with
            | Some s => JsString.includes (JsString.toLowerCase s) lowerQuery
            | None => false
            end then true
    else false.

(** The comparator of the no-query branch, also used by [useAllLinks]:
    [(a, b) => b._creationTime - a._creationTime]. *)
Definition byCreationTimeDesc (a b : KalpaLink) : Z := creationTime b - creationTime a.

(** The comparator of the query branch of [sortByRelevance]. *)
Definition relevanceCompare (lowerQuery : string) (a b : KalpaLink) : Z :=
  let aExactTitle := JsString.eqb (JsString.toLowerCase (title a)) lowerQuery in
  let bExactTitle := JsString.eqb (JsString.toLowerCase (title b)) lowerQuery in
  if aExactTitle && negb bExactTitle then -1
  else if bExactTitle && negb aExactTitle then 1
  else
    let aStartsTitle := JsString.startsWith (JsString.toLowerCase (title a)) lowerQuery in
    let bStartsTitle := JsString.startsWith (JsString.toLowerCase (title b)) lowerQuery in
    if aStartsTitle && negb bStartsTitle then -1
    else if bStartsTitle && negb aStartsTitle then 1
    else
      let aContainsTitle := JsString.includes (JsString.toLowerCase (title a)) lowerQuery in
      let bContainsTitle := JsString.includes (JsString.toLowerCase (title b)) lowerQuery in
      if aContainsTitle && negb bContainsTitle then -1
      else if bContainsTitle && negb aContainsTitle then 1
      else creationTime b - creationTime a.

(** The comparator [sortByRelevance] sorts with, for either branch. *)
Definition sortByRelevance_compareFn (query : string) : KalpaLink -> KalpaLink -> Z :=
  if negb (JsString.truthy query) then byCreationTimeDesc
  else relevanceCompare (JsString.toLowerCase query).

(** [sortByRelevance(links, query)] on references: copies the array, sorts
    the copy in place and returns it. *)
Definition sortByRelevance_ref (links : loc) (query : string) (h : Heap)
  : option (loc * Heap) :=
  match array_spread links h with
  | None => None
  | Some (copy, h') => array_sort (sortByRelevance_compareFn query) copy h'
  end.

(** [sortByRelevance(links, query)] on values: the elements of the array it
    returns, from the elements of the array it is given. *)
Definition sortByRelevance (links : list KalpaLink) (query : string) : list KalpaLink :=
  if negb (JsString.truthy query) then js_sort byCreationTimeDesc links
  else js_sort (relevanceCompare (JsString.toLowerCase query)) links.

(** ** utils/kalpa-client.ts: the request pipeline *)

Definition DEFAULT_TIMEOUT : Z := 5000.
Definition DEFAULT_RETRIES : nat := 3.
Definition BASE_BACKOFF_MS : Z := 300.
Definition CONVEX_URL : string := "https://convex.usekalpa.com".
Definition KALPA_APP_URL : string := "https://usekalpa.com".

Record KalpaClient : Type := {
  convexUrl : string;
  (** [prefs.apiToken] as read by the constructor *)
  apiToken : option string;
  kalpaAppUrl : string;
  timeout : Z
}.

(** [new KalpaClient()] *)
Definition new_KalpaClient (w : World) : KalpaClient :=
  {| convexUrl := CONVEX_URL;
     apiToken := prefs_apiToken w;
     kalpaAppUrl := KALPA_APP_URL;
     timeout := DEFAULT_TIMEOUT |}.

Definition connection_failed_toast (this : KalpaClient) (retries : nat) : Toast :=
  {| toast_style := Failure;
     toast_title := "Connection Failed";
     toast_message :=
       ("Could not reach Kalpa after " ++ JsString.of_nat (retries + 1) ++ " attempts")%string;
     toast_primaryAction :=
       Some {| action_title := "Open Kalpa Web App"; action_open := kalpaAppUrl this |} |}.

Definition auth_required_toast : Toast :=
  {| toast_style := Failure;
     toast_title := "Authentication Required";
     toast_message := "Please update your API Token in extension preferences";
     toast_primaryAction := None |}.

Definition authentication_required : Thrown :=
  ThrownError (new_Error "Authentication required").

Section Client.
Context (P : Platform) (net : Network).
(** The type assertion [data as PaginatedResponse<KalpaLink>]: how the parsed
    payload of the links endpoint reads as a typed page. *)
Context (as_page : JSValue -> PaginatedResponse).

(** [this.getHeaders()] *)
Definition getHeaders (this : KalpaClient) (w : World) : list (string * string) :=
  let headers := [("Content-Type", "application/json")] in
  let token :=
    match getApiToken w with
    | Some t => Some t
    | None => apiToken this
    end in
  match token with
  | Some t => if JsString.truthy t
              then headers ++ [("Authorization", ("Bearer " ++ t)%string)]
              else headers
  | None => headers
  end.

(** [this.fetchWithTimeout(url, options)]: one call to [fetch], raced
    against [this.timeout]. *)
Definition fetchWithTimeout (this : KalpaClient) (req : Request) : M Response :=
  fun w =>
    (net (fetch_count w) req (timeout this),
     mkWorld (prefs_apiToken w) (clock_ms w) (S (fetch_count w))
             (events w ++ [EvFetch req (timeout this)])).

(** [error instanceof Error ? error : new Error(String(error))] *)
Definition capture (error : Thrown) : JSError :=
  match error with
  | ThrownError e => e
  | ThrownValue v => new_Error (js_String P v)
  end.

(** The [for] loop of [fetchWithRetry] and the code after it. [remaining] is
    the number of iterations left, [retries + 1 - attempt]. *)
Fixpoint retry_loop (this : KalpaClient) (req : Request) (retries : nat)
    (remaining attempt : nat) (lastError : option JSError) : M Response :=
  match remaining with
  | O =>
      showToast (connection_failed_toast this retries) ;;
      throw (ThrownError (match lastError with
                          | Some e => e
                          | None => new_Error "Connection failed"
                          end))
  | S remaining' =>
      fun w =>
        match fetchWithTimeout this req w with
        | (Ok response, w') => (Ok response, w')
        | (Throw error, w') =>
            let lastError' := capture error in
            ((if (attempt <? retries)%nat
              then sleep (BASE_BACKOFF_MS * 2 ^ Z.of_nat attempt)
              else ret tt) ;;
             retry_loop this req retries remaining' (S attempt) (Some lastError')) w'
        end
  end.

(** [this.fetchWithRetry(url, options, retries)] *)
Definition fetchWithRetry (this : KalpaClient) (req : Request) (retries : nat)
  : M Response :=
  retry_loop this req retries (S retries) 0 None.

(** The message computed on a non-2xx response by [query], [mutation],
    [getUniverses] and [saveLink]:
    [try { errorJson = JSON.parse(errorText);
           errorMessage = errorJson.details || errorJson.error || errorMessage }
     catch { errorMessage = errorText || errorMessage }] *)
Definition extract_error_message (errorText errorMessage : string) : JSValue :=
  let caught := JStr (if JsString.truthy errorText then errorText else errorMessage) in
  match JSON_parse P errorText with
  | Throw _ => caught
  | Ok errorJson =>
      match js_get errorJson "details" with
      | Throw _ => caught
      | Ok details =>
          js_or details (js_or (prop_of errorJson "error") (JStr errorMessage))
      end
  end.

(** [throw new Error(errorMessage)] *)
Definition throw_message {A} (errorMessage : JSValue) : M A :=
  throw (ThrownError (new_Error (js_String P errorMessage))).

Definition failed_status (what : string) (response : Response) : string :=
  (what ++ " (" ++ JsString.of_nat (resp_status response) ++ ")")%string.

(** [await response.json()] *)
Definition response_json (response : Response) : M JSValue :=
  lift (JSON_parse P (resp_text response)).

(** The URL and options each operation hands to [fetchWithRetry]. *)
Definition query_request (this : KalpaClient) (apiPath : string) (args : JSValue)
    (w : World) : Request :=
  {| req_url := (kalpaAppUrl this ++ "/api/" ++ apiPath)%string;
     req_method := "POST";
     req_headers := getHeaders this w;
     req_body := Some args |}.

Definition mutation_request (this : KalpaClient) (functionPath : string) (args : JSValue)
    (w : World) : Request :=
  {| req_url := (convexUrl this ++ "/api/mutation")%string;
     req_method := "POST";
     req_headers := getHeaders this w;
     req_body := Some (JObj [("path", JStr functionPath); ("args", args)]) |}.

Definition links_request (this : KalpaClient) (token : string) (args : JSValue) : Request :=
  {| req_url := (convexUrl this ++ "/http/links-list")%string;
     req_method := "POST";
     req_headers := [("Content-Type", "application/json");
                     ("Authorization", ("Bearer " ++ token)%string)];
     req_body := Some args |}.

Definition universes_request (this : KalpaClient) (token : string) : Request :=
  {| req_url := (convexUrl this ++ "/http/universes-list")%string;
     req_method := "GET";
     req_headers := [("Content-Type", "application/json");
                     ("Authorization", ("Bearer " ++ token)%string)];
     req_body := None |}.

Definition save_request (this : KalpaClient) (request : JSValue) (w : World) : Request :=
  {| req_url := (kalpaAppUrl this ++ "/api/save")%string;
     req_method := "POST";
     req_headers := getHeaders this w;
     req_body := Some request |}.

(** [if (!token) { throw new Error("Authentication required") }] *)
Definition require_token (token : option string) : M string :=
  match token with
  | Some t => if JsString.truthy t then ret t else throw authentication_required
  | None => throw authentication_required
  end.

(** [this.query(apiPath, args)] *)
Definition query (this : KalpaClient) (apiPath : string) (args : JSValue) : M JSValue :=
  let* token := ensureValidTokenOrToast P in
  let* token := require_token token in
  let* response :=
    (fun w => fetchWithRetry this (query_request this apiPath args w)
                DEFAULT_RETRIES w) in
  if negb (resp_ok response) then
    let errorText := resp_text response in
    let errorMessage :=
      extract_error_message errorText (failed_status "Query failed" response) in
    (if (resp_status response =? 401)%nat then showToast auth_required_toast
     else ret tt) ;;
    throw_message errorMessage
  else response_json response.

(** [this.mutation(functionPath, args)] *)
Definition mutation (this : KalpaClient) (functionPath : string) (args : JSValue)
  : M JSValue :=
  let* token := ensureValidTokenOrToast P in
  let* token := require_token token in
  let* response :=
    (fun w => fetchWithRetry this (mutation_request this functionPath args w)
                DEFAULT_RETRIES w) in
  if negb (resp_ok response) then
    let errorText := resp_text response in
    let errorMessage :=
      extract_error_message errorText (failed_status "Mutation failed" response) in
    throw_message errorMessage
  else
    let* result := response_json response in
    lift (js_get result "value").

(** [this.linksQuery(args)] *)
Definition linksQuery (this : KalpaClient) (args : JSValue) : M JSValue :=
  let* token := ensureValidTokenOrToast P in
  let* token := require_token token in
  let* response :=
    fetchWithRetry this (links_request this token args) DEFAULT_RETRIES in
  if negb (resp_ok response) then
    let errorText := resp_text response in
    throw (ThrownError (new_Error ("Links query failed: " ++ errorText)%string))
  else response_json response.

(** [x || undefined] on an optional string *)
Definition string_or_undefined (x : option string) : JSValue :=
  match x with
  | Some s => if JsString.truthy s then JStr s else JUndefined
  | None => JUndefined
  end.

(** [x || false] on an optional boolean *)
Definition bool_or_false (x : option bool) : JSValue :=
  match x with Some true => JBool true | _ => JBool false end.

(** [x || d] on an optional number *)
Definition number_or (x : option Z) (d : Z) : Z :=
  match x with
  | Some n => if n =? 0 then d else n
  | None => d
  end.

(** [this.getLinks(options)] *)
Definition getLinks (this : KalpaClient) (options : LinkSearchOptions)
  : M PaginatedResponse :=
  let* data :=
    linksQuery this
      (JObj [("universeId", string_or_undefined (opt_universeId options));
             ("hideRead", bool_or_false (opt_hideRead options));
             ("hideArchived", bool_or_false (opt_hideArchived options));
             ("numItems", JNum (inject_Z (number_or (opt_numItems options) 50)))]) in
  ret (as_page data).

(** [this.getVideos(options)] *)
Definition getVideos (this : KalpaClient) (options : LinkSearchOptions)
  : M PaginatedResponse :=
  let* data :=
    linksQuery this
      (JObj [("universeId", string_or_undefined (opt_universeId options));
             ("hideRead", bool_or_false (opt_hideRead options));
             ("hideArchived", bool_or_false (opt_hideArchived options));
             ("numItems", JNum (inject_Z (number_or (opt_numItems options) 50)));
             ("linkType", JStr "video")]) in
  ret (as_page data).

(** [this.getCodepenLinks(numItems, universeId)] *)
Definition getCodepenLinks (this : KalpaClient) (numItems : Z) (universeId : option string)
  : M PaginatedResponse :=
  let* data :=
    linksQuery this
      (JObj [("numItems", JNum (inject_Z numItems));
             ("linkType", JStr "codepen");
             ("universeId", string_or_undefined universeId)]) in
  ret (as_page data).

(** [this.getLink(linkId)] *)
Definition getLink (this : KalpaClient) (linkId : string) : M JSValue :=
  query this "links" (JObj [("linkId", JStr linkId)]).

(** [this.getUniverses()]; the result is [data.universes ?? []]. *)
Definition getUniverses (this : KalpaClient) : M JSValue :=
  let* token := ensureValidTokenOrToast P in
  let* token := require_token token in
  let* response :=
    fetchWithRetry this (universes_request this token) DEFAULT_RETRIES in
  if negb (resp_ok response) then
    let errorText := resp_text response in
    let errorMessage :=
      extract_error_message errorText (failed_status "Query failed" response) in
    (if (resp_status response =? 401)%nat then showToast auth_required_toast
     else ret tt) ;;
    throw_message errorMessage
  else
    let* data := response_json response in
    let* universes := lift (js_get data "universes") in
    ret (match universes with
         | JUndefined | JNull => JArr []
         | us => us
         end).

(** [this.saveLink(request)] *)
Definition saveLink (this : KalpaClient) (request : JSValue) : M JSValue :=
  let* token := ensureValidTokenOrToast P in
  let* token := require_token token in
  let* response :=
    (fun w => fetchWithRetry this (save_request this request w)
                DEFAULT_RETRIES w) in
  if negb (resp_ok response) then
    let errorText := resp_text response in
    let errorMessage :=
      extract_error_message errorText (failed_status "Failed to save link" response) in
    (if (resp_status response =? 401)%nat then showToast auth_required_toast
     else ret tt) ;;
    throw_message errorMessage
  else response_json response.

End Client.

(** ** hooks/useLinks.ts: the aggregation *)

(** The three methods of the client that [useAllLinks] calls. *)
Record LinksClient : Type := {
  client_getLinks : LinkSearchOptions -> M PaginatedResponse;
  client_getVideos : LinkSearchOptions -> M PaginatedResponse;
  client_getCodepenLinks : Z -> option string -> M PaginatedResponse
}.

(** [getKalpaClient()], as far as [useAllLinks] uses it. *)
Definition kalpa_client (P : Platform) (net : Network)
    (as_page : JSValue -> PaginatedResponse) (this : KalpaClient) : LinksClient :=
  {| client_getLinks := getLinks P net as_page this;
     client_getVideos := getVideos P net as_page this;
     client_getCodepenLinks := getCodepenLinks P net as_page this |}.

(** [error instanceof Error && error.message.includes("Authentication")] *)
Definition is_auth_error (error : Thrown) : bool :=
  match error with
  | ThrownError e => JsString.includes (err_message e) "Authentication"
  | ThrownValue _ => false
  end.

(** The asynchronous function [useAllLinks] hands to [useCachedPromise]. *)
Definition useAllLinks (client : LinksClient) (opts : LinkSearchOptions)
  : M (list KalpaLink) :=
  let effectiveNumItems := number_or (opt_numItems opts) 100 in
  let fetchOpts :=
    {| opt_search := opt_search opts;
       opt_universeId := opt_universeId opts;
       opt_tagId := opt_tagId opts;
       opt_hideRead := opt_hideRead opts;
       opt_hideArchived := opt_hideArchived opts;
       opt_numItems := Some effectiveNumItems |} in
  try_catch
    (let* linksResult := client_getLinks client fetchOpts in
     let* videosResult := client_getVideos client fetchOpts in
     let* codepenResult :=
       client_getCodepenLinks client effectiveNumItems (opt_universeId opts) in
     let allLinks :=
       resp_page linksResult ++ resp_page videosResult ++ resp_page codepenResult in
     ret (js_sort byCreationTimeDesc allLinks))
    (fun error =>
       console_error "useAllLinks error:" error ;;
       if is_auth_error error then ret [] else throw error).

(** ** Vocabulary of the statements *)

(** The delays slept, in order. *)
Definition sleeps (evs : list Event) : list Z :=
  flat_map (fun e => match e with EvSleep ms => [ms] | _ => [] end) evs.

(** The notices shown, in order. *)
Definition toasts (evs : list Event) : list Toast :=
  flat_map (fun e => match e with EvToast t => [t] | _ => [] end) evs.

(** The number of calls to [fetch]. *)
Definition attempts (evs : list Event) : nat :=
  length (flat_map (fun e => match e with EvFetch _ _ => [tt] | _ => [] end) evs).

(** The effects of [k] failed attempts that are each followed by a backoff
    delay, the first of them being attempt number [from]. *)
Definition failed_attempts (this : KalpaClient) (req : Request) (from k : nat) : list Event :=
  flat_map (fun i => [EvFetch req (timeout this);
                      EvSleep (BASE_BACKOFF_MS * 2 ^ Z.of_nat i)])
           (seq from k).

(** The world after the effects [evs], [n] network calls and [ms] milliseconds. *)
Definition advance (w : World) (ms : Z) (n : nat) (evs : list Event) : World :=
  mkWorld (prefs_apiToken w) (clock_ms w + ms) (fetch_count w + n) (events w ++ evs).

Fixpoint sum_Z (l : list Z) : Z :=
  match l with [] => 0 | x :: l' => x + sum_Z l' end.

(** Case-insensitive containment, equality and prefix, as the specification
    words them. *)
Definition ci_includes (hay needle : string) : Prop :=
  JsString.includes (JsString.toLowerCase hay) (JsString.toLowerCase needle) = true.
Definition ci_equal (a b : string) : Prop :=
  JsString.toLowerCase a = JsString.toLowerCase b.
Definition ci_prefix (hay needle : string) : Prop :=
  JsString.startsWith (JsString.toLowerCase hay) (JsString.toLowerCase needle) = true.

(** The ranking order of the specification, for a query [q]: exact title
    match first, then title prefix, then title containment, then the newer
    item. [ranks_before q a b] says that [a] must come strictly before [b]. *)
Definition ranks_before (q : string) (a b : KalpaLink) : Prop :=
  (ci_equal (title a) q /\ ~ ci_equal (title b) q) \/
  ((ci_equal (title a) q <-> ci_equal (title b) q) /\
   ((ci_prefix (title a) q /\ ~ ci_prefix (title b) q) \/
    ((ci_prefix (title a) q <-> ci_prefix (title b) q) /\
     ((ci_includes (title a) q /\ ~ ci_includes (title b) q) \/
      ((ci_includes (title a) q <-> ci_includes (title b) q) /\
       creationTime b < creationTime a))))).

(** No pair of the list is out of order: whenever [a] occurs before [b], [b]
    does not have to come strictly before [a]. *)
Definition ordered_by (before : KalpaLink -> KalpaLink -> Prop) (l : list KalpaLink) : Prop :=
  forall i j a b, (i < j)%nat -> l !! i = Some a -> l !! j = Some b -> ~ before b a.

(** For a comparator, [a] may stand before [b]. *)
Definition may_precede {A} (compareFn : A -> A -> Z) (a b : A) : Prop :=
  compareFn a b <= 0.

(** The message of the error reported for a non-2xx response, in words: the
    first truthy one of the fields [details] and [error] when the body parses
    to a value other than [null], the default "<what> (<status>)" when it
    parses and has neither; the raw body text when it does not parse (or
    parses to [null]), and the default when that text is empty. *)
Definition reported_message (P : Platform) (what : string) (response : Response) : string :=
  let default := (what ++ " (" ++ JsString.of_nat (resp_status response) ++ ")")%string in
  let raw :=
    match resp_text response with
    | EmptyString => default
    | text => text
    end in
  match JSON_parse P (resp_text response) with
  | Throw _ | Ok JNull | Ok JUndefined => raw
  | Ok body =>
      if truthy (prop_of body "details") then js_String P (prop_of body "details")
      else if truthy (prop_of body "error") then js_String P (prop_of body "error")
      else default
  end.

(** A malformed credential: fewer than two segments between dots, or a
    payload segment that does not decode, or whose decoded text [JSON.parse]
    rejects. *)
Definition malformed (P : Platform) (token : string) : Prop :=
  let parts := JsString.split_char "." token in
  (length parts < 2)%nat \/
  forall decoded, base64UrlDecode P (nth 1 parts EmptyString) = Some decoded ->
                  is_Throw (JSON_parse P decoded) = true.

(** The number of occurrences of a character. *)
Fixpoint count_char (c : ascii) (s : string) : nat :=
  match s with
  | EmptyString => O
  | String x s' => ((if Ascii.eqb x c then 1 else 0) + count_char c s')%nat
  end.

(** ** A concrete platform, network and world for the closed examples *)

Module Sample.

Definition quote : string := String (ascii_of_nat 34) EmptyString.

(** The text [{"exp":1700000000}] and its base64url encoding. *)
Definition exp_claims_text : string :=
  ("{" ++ quote ++ "exp" ++ quote ++ ":1700000000}")%string.
Definition exp_segment : string := "eyJleHAiOjE3MDAwMDAwMDB9".

Definition syntax_error : Thrown :=
  ThrownError (mkError "SyntaxError" "Unexpected token").

(** [JSON.parse] on the documents the examples use: the claims above, the
    empty object and [null]. Any other text the examples feed it is not
    JSON, and is rejected. *)
Definition parse (text : string) : Result JSValue :=
  if String.eqb text exp_claims_text then Ok (JObj [("exp", JNum (1700000000 # 1))])
  else if String.eqb text "{}" then Ok (JObj [])
  else if String.eqb text "null" then Ok JNull
  else Throw syntax_error.

(** The base64 decoder on the one segment the examples decode. *)
Definition decode (base64 : string) : Result string :=
  Ok (if String.eqb base64 exp_segment then exp_claims_text else EmptyString).

Definition platform : Platform :=
  {| JSON_parse := parse;
     Buffer_base64_utf8 := decode;
     display := fun _ => "[object Object]" |}.

(** A three-segment credential whose claims expire at second 1700000000. *)
Definition jwt : string := ("eyJhbGciOiJub25lIn0." ++ exp_segment ++ ".c2ln")%string.

Definition empty_page : PaginatedResponse :=
  {| resp_page := []; isDone := true; continueCursor := "" |}.
Definition as_page (_ : JSValue) : PaginatedResponse := empty_page.

Definition world (token : option string) (now : Z) : World :=
  mkWorld token now 0 [].

Definition client : KalpaClient :=
  {| convexUrl := CONVEX_URL; apiToken := None;
     kalpaAppUrl := KALPA_APP_URL; timeout := DEFAULT_TIMEOUT |}.

Definition timed_out : Thrown :=
  ThrownError (mkError "AbortError" "This operation was aborted").

(** A network that is down. *)
Definition net_down : Network := fun _ _ _ => Throw timed_out.

(** A network that always answers with the same response. *)
Definition net_answers (r : Response) : Network := fun _ _ _ => Ok r.

(** A network whose first call times out and that answers afterwards. *)
Definition net_flaky (r : Response) : Network :=
  fun n _ _ => match n with O => Throw timed_out | S _ => Ok r end.

Definition request : Request :=
  {| req_url := "https://usekalpa.com/api/links"; req_method := "POST";
     req_headers := []; req_body := None |}.

Definition link (t : string) (created : Z) : KalpaLink :=
  {| link_id := t; creationTime := created; url := "https://example.com/";
     title := t; domain := "example.com"; linkType := None;
     is_read := false; is_archived := false; summary_preview := None;
     tags := None; universes := None |}.

Definition page_of (created : list Z) : PaginatedResponse :=
  {| resp_page := map (link "item") created; isDone := true; continueCursor := "" |}.

Definition options : LinkSearchOptions :=
  {| opt_search := None; opt_universeId := None; opt_tagId := None;
     opt_hideRead := None; opt_hideArchived := None; opt_numItems := None |}.

(** A heap with one array, at reference 1. *)
Definition heap : Heap := {[ 1%positive := [link "older" 1; link "newer" 2] ]}.

(** The options [useAllLinks] passes on when called with [options]. *)
Definition fetch_options : LinkSearchOptions :=
  {| opt_search := None; opt_universeId := None; opt_tagId := None;
     opt_hideRead := None; opt_hideArchived := None; opt_numItems := Some 100 |}.

Definition empty_object : Response := {| resp_status := 200; resp_text := "{}" |}.

Definition server_error : Response :=
  {| resp_status := 500; resp_text := "Authentication backend unavailable" |}.

Definition no_fields : Response := {| resp_status := 500; resp_text := "{}" |}.

Definition unauthorized : Response := {| resp_status := 401; resp_text := "Unauthorized" |}.

(** A client whose three endpoints answer with fixed pages. *)
Definition fixed_client (links videos codepens : PaginatedResponse) : LinksClient :=
  {| client_getLinks := fun _ => ret links;
     client_getVideos := fun _ => ret videos;
     client_getCodepenLinks := fun _ _ => ret codepens |}.

End Sample.

(** * The rest of the client layer *)

(** ** utils/helpers.ts: display helpers *)

Inductive Icon : Type := IconPlay | IconCode | IconTray | IconCheckCircle | IconLink.

Inductive Color : Type :=
  | SecondaryText | Green | PrimaryText | Purple | Magenta | Red | Yellow | Blue.

(** [link.linkType === "youtube"] and [link.linkType === "codepen"] *)
Definition linkType_is (t : LinkType) (link : KalpaLink) : bool :=
  match linkType link, t with
  | Some youtube, youtube | Some codepen, codepen | Some page, page => true
  | _, _ => false
  end.

(** [link.linkType === "youtube" || link.url.includes("youtube.com") ||
     link.url.includes("youtu.be")] *)
Definition looks_like_video (link : KalpaLink) : bool :=
  linkType_is youtube link || JsString.includes (url link) "youtube.com"
  || JsString.includes (url link) "youtu.be".

(** [link.linkType === "codepen" || link.url.includes("codepen.io")] *)
Definition looks_like_codepen (link : KalpaLink) : bool :=
  linkType_is codepen link || JsString.includes (url link) "codepen.io".

(** [getLinkIcon(link)] *)
Definition getLinkIcon (link : KalpaLink) : Icon :=
  if looks_like_video link then IconPlay
  else if looks_like_codepen link then IconCode
  else if is_archived link then IconTray
  else if is_read link then IconCheckCircle
  else IconLink.

(** [getLinkIconColor(link)] *)
Definition getLinkIconColor (link : KalpaLink) : Color :=
  if is_archived link then SecondaryText
  else if is_read link then Green
  else PrimaryText.

(** [Date.now() - timestamp] and the units derived from it in
    [formatRelativeTime]; [Math.floor] of a quotient is [Z.div]. *)
Definition js_number (z : Z) : string := NilZero.string_of_int (Z.to_int z).

(** [formatRelativeTime(timestamp)] *)
Definition formatRelativeTime (timestamp : Z) (w : World) : string :=
  let now := clock_ms w in
  let diff := now - timestamp in
  let seconds := diff / 1000 in
  let minutes := seconds / 60 in
  let hours := minutes / 60 in
  let days := hours / 24 in
  let weeks := days / 7 in
  let months := days / 30 in
  if 0 <? months then (js_number months ++ "mo ago")%string
  else if 0 <? weeks then (js_number weeks ++ "w ago")%string
  else if 0 <? days then (js_number days ++ "d ago")%string
  else if 0 <? hours then (js_number hours ++ "h ago")%string
  else if 0 <? minutes then (js_number minutes ++ "m ago")%string
  else "Just now".

(** What [colorMap[key] || Color.PrimaryText] evaluates to. The map is an
    object literal, so a key that names a member inherited from
    [Object.prototype] finds that member; the only such names a lower-cased
    key can spell are "constructor" and "__proto__". *)
Inductive ColorLookup : Type :=
  | Tint (c : Color)
  | Inherited (member : string).

Definition colorMap : list (string * Color) :=
  [("#a78bfa", Purple); ("#f472b6", Magenta); ("#fb7185", Red); ("#fbbf24", Yellow);
   ("#34d399", Green); ("#60a5fa", Blue); ("#f87171", Red); ("#a3a3a3", SecondaryText)].

Fixpoint colorMap_get (key : string) (m : list (string * Color)) : option Color :=
  match m with
  | [] => None
  | (k, c) :: m' => if String.eqb key k then Some c else colorMap_get key m'
  end.

(** [hexToRaycastColor(hex)] *)
Definition hexToRaycastColor (hex : string) : ColorLookup :=
  let key := JsString.toLowerCase hex in
  match colorMap_get key colorMap with
  | Some c => Tint c
  | None =>
      if String.eqb key "constructor" || String.eqb key "__proto__" then Inherited key
      else Tint PrimaryText
  end.

(** [text.slice(0, end)]: a negative [end] counts from the end of the text. *)
Definition js_slice0 (text : string) (end_ : Z) : string :=
  let len := Z.of_nat (String.length text) in
  let final := if end_ <? 0 then Z.max (len + end_) 0 else Z.min end_ len in
  String.substring 0 (Z.to_nat final) text.

(** [truncate(text, maxLength)] *)
Definition truncate (text : string) (maxLength : Z) : string :=
  if Z.of_nat (String.length text) <=? maxLength then text
  else (js_slice0 text (maxLength - 3) ++ "...")%string.

(** [getYouTubeThumbnail(videoId)] *)
Definition getYouTubeThumbnail (videoId : string) : string :=
  ("https://img.youtube.com/vi/" ++ videoId ++ "/mqdefault.jpg")%string.

(** ** search-links.tsx *)

(** [arr.forEach(f)] where [f] pushes its argument onto one of several
    arrays: [push_each choose] is the content of the array chosen by
    [choose], starting from [acc]. *)
Fixpoint push_each {A} (choose : A -> bool) (acc items : list A) : list A :=
  match items with
  | [] => acc
  | x :: items' => push_each choose (if choose x then acc ++ [x] else acc) items'
  end.

(** The [filteredLinks] memo of [SearchLinksCommand]; [None] is [undefined],
    the data not being loaded yet. *)
Definition filteredLinks (allLinks : option (list KalpaLink)) (searchText : string)
  : list KalpaLink :=
  match allLinks with
  | None => []
  | Some allLinks =>
      let base :=
        if JsString.truthy searchText
        then List.filter (fun link => matchesSearch link searchText) allLinks
        else allLinks in
      sortByRelevance base searchText
  end.

Record LinkGroups : Type := {
  group_articles : list KalpaLink;
  group_videos : list KalpaLink;
  group_codepens : list KalpaLink
}.

(** The [groupedLinks] memo of [SearchLinksCommand]. *)
Definition groupedLinks (filtered : list KalpaLink) : LinkGroups :=
  {| group_articles :=
       push_each (fun link => negb (looks_like_video link) && negb (looks_like_codepen link))
                 [] filtered;
     group_videos := push_each looks_like_video [] filtered;
     group_codepens :=
       push_each (fun link => negb (looks_like_video link) && looks_like_codepen link)
                 [] filtered |}.




(** ** recent-links.tsx *)

Record TimeBuckets : Type := {
  bucket_today : list KalpaLink;
  bucket_yesterday : list KalpaLink;
  bucket_thisWeek : list KalpaLink;
  bucket_older : list KalpaLink
}.

Definition oneDay : Z := 24 * 60 * 60 * 1000.
Definition oneWeek : Z := 7 * oneDay.

(** The grouping memo of [RecentLinksCommand]; [None] is [undefined]. *)
Definition recent_buckets (links : option (list KalpaLink)) (w : World) : TimeBuckets :=
  let now := clock_ms w in
  let age link := now - creationTime link in
  let links := match links with Some l => l | None => [] end in
  {| bucket_today := push_each (fun link => age link <? oneDay) [] links;
     bucket_yesterday :=
       push_each (fun link => negb (age link <? oneDay) && (age link <? 2 * oneDay)) [] links;
     bucket_thisWeek :=
       push_each (fun link => negb (age link <? oneDay) && negb (age link <? 2 * oneDay)
                              && (age link <? oneWeek)) [] links;
     bucket_older :=
       push_each (fun link => negb (age link <? oneDay) && negb (age link <? 2 * oneDay)
                              && negb (age link <? oneWeek)) [] links |}.

(** ** browse-universes.tsx *)

(** The filter of [UniverseLinksView]. *)
Definition universe_filter (searchText : string) (link : KalpaLink) : bool :=
  if negb (JsString.truthy searchText) then true
  else
    let query := JsString.toLowerCase searchText in
    JsString.includes (JsString.toLowerCase (title link)) query
    || JsString.includes (JsString.toLowerCase (url link)) query
    || JsString.includes (JsString.toLowerCase (domain link)) query.

(** ** login.tsx *)

Inductive LoginView : Type := ViewConnected | ViewExpired | ViewConnect.

(** [LoginCommand()], by the view it returns: the "connected" page, the
    "token has expired" page or the "connect to Kalpa" page. *)
Definition LoginCommand (P : Platform) (w : World) : LoginView :=
  let token := getApiToken w in
  let expired :=
    match token with
    | Some t => if JsString.truthy t then tokenIsExpired P t w else None
    | None => None
    end in
  let present := match token with Some t => JsString.truthy t | None => false end in
  let hasValidToken :=
    present && match expired with Some false => true | _ => false end in
  let hasExpiredToken :=
    present && match expired with Some true => true | _ => false end in
  if hasValidToken then ViewConnected
  else if hasExpiredToken then ViewExpired
  else ViewConnect.

(** ** utils/kalpa-client.ts: the singleton *)

(** [getKalpaClient()]: [clientInstance] is the module variable, [None] when
    it is [null]. Returns the client and the new value of the variable. *)
Definition getKalpaClient (clientInstance : option KalpaClient) (w : World)
  : KalpaClient * option KalpaClient :=
  match clientInstance with
  | Some c => (c, Some c)
  | None => let c := new_KalpaClient w in (c, Some c)
  end.

(** [resetKalpaClient()] *)
Definition resetKalpaClient (clientInstance : option KalpaClient) : option KalpaClient :=
  None.

(** [client.getLinkWebUrl(linkId)], [client.getUniverseWebUrl(universeId)],
    [client.getInboxUrl()] *)
Definition getLinkWebUrl (this : KalpaClient) (linkId : string) : string :=
  (kalpaAppUrl this ++ "/links/" ++ linkId)%string.
Definition getUniverseWebUrl (this : KalpaClient) (universeId : string) : string :=
  (kalpaAppUrl this ++ "/universes/" ++ universeId)%string.
Definition getInboxUrl (this : KalpaClient) : string :=
  (kalpaAppUrl this ++ "/inbox")%string.

(** ** quick-save.tsx: finding the page to save *)








(** [s.split(sep)] for a separator of one character or more. [skip] counts
    the characters of a separator just found that are still to be passed. *)
Fixpoint split_on_from (sep : string) (skip : nat) (s : string) : list string :=
  match s with
  | EmptyString => [EmptyString]
  | String c s' =>
      match skip with
      | S k => split_on_from sep k s'
      | O =>
          if String.prefix sep s
          then EmptyString :: split_on_from sep (String.length sep - 1) s'
          else match split_on_from sep 0 s' with
               | tok :: rest => String c tok :: rest
               | [] => [String c EmptyString]
               end
      end
  end.

Definition split_on (sep s : string) : list string := split_on_from sep 0 s.



(** ** Vocabulary of the further statements *)

(** [w'] is [w] after the effects [evs] and nothing else: the preferences
    are the same, the clock has moved by the delays slept, and the network
    has been called once per fetch. *)
Definition steps (w w' : World) (evs : list Event) : Prop :=
  w' = advance w (sum_Z (sleeps evs)) (attempts evs) evs.

(** The computation [m], from any world, calls the network at most [calls]
    times and sleeps at most [ms] milliseconds in all, and has no effect
    beyond the events it logs. *)
Definition within {A} (m : M A) (calls ms : nat) : Prop :=
  forall w, exists evs,
    steps w (snd (m w)) evs /\
    (attempts evs <= calls)%nat /\
    0 <= sum_Z (sleeps evs) <= Z.of_nat ms.

(** The character [c] repeated [n] times. *)
Fixpoint repeat_char (c : ascii) (n : nat) : string :=
  match n with O => EmptyString | S n' => String c (repeat_char c n') end.

(** The characters of a string. *)
Fixpoint chars (s : string) : list ascii :=
  match s with EmptyString => [] | String c s' => c :: chars s' end.

(** ** More concrete inputs for the closed examples *)

Module Demo.

(** A client built while the preference held another token. *)
Definition stale_client : KalpaClient :=
  {| convexUrl := CONVEX_URL; apiToken := Some "stale-token";
     kalpaAppUrl := KALPA_APP_URL; timeout := DEFAULT_TIMEOUT |}.

(** Four links saved 1 hour, 30 hours, 3 days and 10 days before the clock
    reads 1000000000000, newest first. *)
Definition recent_links : list KalpaLink :=
  [Sample.link "hour" 999996400000; Sample.link "day" 999892000000;
   Sample.link "days" 999740800000; Sample.link "old" 999136000000].

(** A link whose domain has no "www." in front. *)
Definition docs_link : KalpaLink :=
  {| link_id := "k2"; creationTime := 5; url := "https://t.co/abc";
     title := "Release notes"; domain := "Docs.Example.org"; linkType := Some page;
     is_read := true; is_archived := true; summary_preview := Some "";
     tags := None;
     universes := Some [{| universe_id := "u1"; universe_creationTime := 1;
                           universe_name := "Work"; universe_color := "#A78BFA";
                           universe_linkCount := None |};
                        {| universe_id := "u2"; universe_creationTime := 2;
                           universe_name := "Read later"; universe_color := "#000000";
                           universe_linkCount := Some 3 |};
                        {| universe_id := "u3"; universe_creationTime := 3;
                           universe_name := "Misc"; universe_color := "constructor";
                           universe_linkCount := None |}] |}.


End Demo.

(** * Properties *)

(** ** The string functions on examples *)

Example split_dot_jwt : JsString.split_char "." "aa.bb.cc" = ["aa"; "bb"; "cc"].
Proof. reflexivity. Qed.

Example split_dot_trailing : JsString.split_char "." "aa." = ["aa"; ""].
Proof. reflexivity. Qed.

Example split_ws_title : JsString.split_ws " foo  go bar " = [""; "foo"; "go"; "bar"; ""].
Proof. reflexivity. Qed.

Example split_ws_empty : JsString.split_ws "" = [""].
Proof. reflexivity. Qed.

Example trim_both : JsString.trim "  a b  " = "a b".
Proof. reflexivity. Qed.

Example lower_mixed : JsString.toLowerCase "Foo Go-Bar9" = "foo go-bar9".
Proof. reflexivity. Qed.

Example of_nat_401 : JsString.of_nat 401 = "401".
Proof. reflexivity. Qed.


(** ** The retry loop *)

Section RetryLoop.
Context (P : Platform) (net : Network) (this : KalpaClient) (req : Request).
Context (retries : nat).

Local Abbreviation delay i := (BASE_BACKOFF_MS * 2 ^ Z.of_nat i).

Lemma advance_zero w : advance w 0 0 [] = w.
Proof.
  destruct w as [tok clk n evs]. unfold advance. simpl.
  f_equal; [lia | lia | apply app_nil_r].
Qed.

Lemma advance_advance w ms1 n1 evs1 ms2 n2 evs2 :
  advance (advance w ms1 n1 evs1) ms2 n2 evs2 =
  advance w (ms1 + ms2) (n1 + n2) (evs1 ++ evs2).
Proof.
  unfold advance. simpl. f_equal; [lia | lia | by rewrite <- app_assoc].
Qed.

(** One failed attempt that is followed by a delay. *)
Lemma retry_loop_failure remaining attempt lastError w error :
  net (fetch_count w) req (timeout this) = Throw error ->
  (attempt < retries)%nat ->
  retry_loop P net this req retries (S remaining) attempt lastError w =
  retry_loop P net this req retries remaining (S attempt) (Some (capture P error))
    (advance w (delay attempt) 1 (failed_attempts this req attempt 1)).
Proof.
  intros Hnet Hlt. simpl. unfold fetchWithTimeout. rewrite Hnet.
  apply Nat.ltb_lt in Hlt. rewrite Hlt. unfold bind, sleep. simpl.
  f_equal. unfold advance, failed_attempts. simpl.
  f_equal; [lia | by rewrite <- app_assoc].
Qed.

(** [j] failed attempts in a row, each followed by its delay. *)
Lemma retry_loop_failures (errs : nat -> Thrown) j :
  forall attempt lastError w remaining,
  (attempt + j <= retries)%nat ->
  (forall i, (i < j)%nat ->
     net (fetch_count w + i)%nat req (timeout this) = Throw (errs (attempt + i)%nat)) ->
  retry_loop P net this req retries (j + remaining) attempt lastError w =
  retry_loop P net this req retries remaining (attempt + j)
    (match j with
     | O => lastError
     | S j' => Some (capture P (errs (attempt + j')%nat))
     end)
    (advance w (sum_Z (map (fun i => delay i) (seq attempt j))) j
             (failed_attempts this req attempt j)).
Proof.
  induction j as [|j IH]; intros attempt lastError w remaining Hle Hnet.
  - simpl. rewrite Nat.add_0_r. unfold failed_attempts. simpl.
    by rewrite advance_zero.
  - change (S j + remaining)%nat with (S (j + remaining)).
    rewrite (retry_loop_failure _ _ _ _ (errs attempt)); [| |lia].
    2:{ specialize (Hnet 0%nat). rewrite !Nat.add_0_r in Hnet. apply Hnet. lia. }
    rewrite IH; [|lia|].
    2:{ intros i Hi. unfold advance. simpl.
        replace (fetch_count w + 1 + i)%nat with (fetch_count w + S i)%nat by lia.
        rewrite Hnet by lia. f_equal. f_equal. lia. }
    rewrite advance_advance.
    replace (S attempt + j)%nat with (attempt + S j)%nat by lia.
    f_equal.
    destruct j as [|j']; do 3 f_equal; lia.
Qed.

Lemma sleeps_failed_attempts from k :
  sleeps (failed_attempts this req from k) = map (fun i => delay i) (seq from k).
Proof.
  unfold failed_attempts. revert from.
  induction k as [|k IH]; intros from; simpl; [done|].
  f_equal. apply IH.
Qed.

Lemma attempts_failed_attempts from k :
  attempts (failed_attempts this req from k) = k.
Proof.
  unfold attempts, failed_attempts. revert from.
  induction k as [|k IH]; intros from; simpl; [done|].
  f_equal. apply IH.
Qed.

Lemma toasts_failed_attempts from k :
  toasts (failed_attempts this req from k) = [].
Proof.
  unfold toasts, failed_attempts. revert from.
  induction k as [|k IH]; intros from; simpl; [done|]. apply IH.
Qed.

Lemma sleeps_app evs1 evs2 : sleeps (evs1 ++ evs2) = sleeps evs1 ++ sleeps evs2.
Proof. unfold sleeps. apply flat_map_app. Qed.

Lemma toasts_app evs1 evs2 : toasts (evs1 ++ evs2) = toasts evs1 ++ toasts evs2.
Proof. unfold toasts. apply flat_map_app. Qed.

Lemma attempts_app evs1 evs2 : attempts (evs1 ++ evs2) = (attempts evs1 + attempts evs2)%nat.
Proof. unfold attempts. by rewrite flat_map_app, length_app. Qed.

End RetryLoop.

(** C1. A transport that throws on every attempt: [fetchWithRetry] with
    retry budget [retries] makes exactly [retries + 1] attempts, sleeps
    [300 * 2^i] ms after failed attempt [i] for each [i < retries] and not
    after the last one, shows the "Connection Failed" notice once, and then
    throws the error captured at the last attempt. *)
Theorem fetchWithRetry_exhausts_budget
    (P : Platform) (net : Network) (this : KalpaClient) (req : Request)
    (retries : nat) (w : World) (errs : nat -> Thrown) :
  (forall i, (i <= retries)%nat ->
     net (fetch_count w + i)%nat req (timeout this) = Throw (errs i)) ->
  let effects :=
    failed_attempts this req 0 retries ++
    [EvFetch req (timeout this); EvToast (connection_failed_toast this retries)] in
  fetchWithRetry P net this req retries w =
    (Throw (ThrownError (capture P (errs retries))),
     advance w (sum_Z (sleeps effects)) (retries + 1) effects) /\
  attempts effects = (retries + 1)%nat /\
  sleeps effects = map (fun i => 300 * 2 ^ Z.of_nat i) (seq 0 retries) /\
  toasts effects = [connection_failed_toast this retries].
Proof.
  intros Hnet effects. subst effects.
  rewrite sleeps_app, attempts_app, toasts_app.
  rewrite sleeps_failed_attempts, attempts_failed_attempts, toasts_failed_attempts.
  simpl. rewrite app_nil_r.
  split; [|split; [reflexivity|split; reflexivity]].
  unfold fetchWithRetry.
  replace (S retries) with (retries + 1)%nat by lia.
  rewrite (retry_loop_failures P net this req retries errs retries 0 None w 1);
    [|lia|intros i Hi; apply Hnet; lia].
  simpl retry_loop at 1. unfold fetchWithTimeout. cbn [fetch_count advance].
  rewrite Hnet by lia. rewrite Nat.ltb_irrefl.
  unfold bind, ret, showToast, throw, log, advance. cbn.
  do 2 f_equal; [lia|by rewrite <- !app_assoc].
Qed.

Lemma fetchWithRetry_exhausts_budget_witness :
  let w := Sample.world None 0 in
  let effects :=
    failed_attempts Sample.client Sample.request 0 3 ++
    [EvFetch Sample.request 5000; EvToast (connection_failed_toast Sample.client 3)] in
  fetchWithRetry Sample.platform Sample.net_down Sample.client Sample.request 3 w =
    (Throw Sample.timed_out, advance w (sum_Z (sleeps effects)) 4 effects) /\
  attempts effects = 4%nat /\
  sleeps effects = [300; 600; 1200] /\
  toasts effects = [connection_failed_toast Sample.client 3].
Proof.
  apply (fetchWithRetry_exhausts_budget Sample.platform Sample.net_down Sample.client
           Sample.request 3 (Sample.world None 0) (fun _ => Sample.timed_out)).
  intros i _. reflexivity.
Defined.

(** C7. A response that arrives without a throw, whatever its status, is
    returned as it is and ends the loop. When it arrives at the attempt of
    index [k] (counted from 0, so after [k] failed attempts) exactly [k]
    delays have been slept, [300 * 2^i] ms for [i < k]; in particular a
    response at the second attempt of the default budget of four costs the
    single delay of 300 ms. *)
Theorem fetchWithRetry_returns_response
    (P : Platform) (net : Network) (this : KalpaClient) (req : Request)
    (retries k : nat) (w : World) (errs : nat -> Thrown) (response : Response) :
  (k <= retries)%nat ->
  (forall i, (i < k)%nat ->
     net (fetch_count w + i)%nat req (timeout this) = Throw (errs i)) ->
  net (fetch_count w + k)%nat req (timeout this) = Ok response ->
  let effects := failed_attempts this req 0 k ++ [EvFetch req (timeout this)] in
  fetchWithRetry P net this req retries w =
    (Ok response, advance w (sum_Z (sleeps effects)) (k + 1) effects) /\
  attempts effects = (k + 1)%nat /\
  sleeps effects = map (fun i => 300 * 2 ^ Z.of_nat i) (seq 0 k) /\
  length (sleeps effects) = k /\
  toasts effects = [] /\
  (k = 1%nat -> sleeps effects = [300]).
Proof.
  intros Hk Hfail Hok effects. subst effects.
  rewrite sleeps_app, attempts_app, toasts_app.
  rewrite sleeps_failed_attempts, attempts_failed_attempts, toasts_failed_attempts.
  simpl. rewrite app_nil_r.
  split; [|split; [reflexivity|split; [reflexivity|split; [|split; [reflexivity|]]]]].
  - unfold fetchWithRetry.
    replace (S retries) with (k + S (retries - k))%nat by lia.
    rewrite (retry_loop_failures P net this req retries errs k 0 None w);
      [|lia|intros i Hi; apply Hfail; lia].
    simpl retry_loop at 1. unfold fetchWithTimeout. cbn [fetch_count advance].
    rewrite Hok. unfold advance. cbn.
    do 2 f_equal; [lia|by rewrite <- !app_assoc].
  - by rewrite length_map, length_seq.
  - intros ->. reflexivity.
Qed.

Lemma fetchWithRetry_returns_response_witness :
  let w := Sample.world None 0 in
  let response := {| resp_status := 503; resp_text := "unavailable" |} in
  let effects :=
    failed_attempts Sample.client Sample.request 0 1 ++ [EvFetch Sample.request 5000] in
  fetchWithRetry Sample.platform (Sample.net_flaky response) Sample.client
      Sample.request DEFAULT_RETRIES w =
    (Ok response, advance w (sum_Z (sleeps effects)) 2 effects) /\
  attempts effects = 2%nat /\
  sleeps effects = [300] /\
  length (sleeps effects) = 1%nat /\
  toasts effects = [] /\
  (1%nat = 1%nat -> sleeps effects = [300]).
Proof.
  apply (fetchWithRetry_returns_response Sample.platform
           (Sample.net_flaky {| resp_status := 503; resp_text := "unavailable" |})
           Sample.client Sample.request DEFAULT_RETRIES 1 (Sample.world None 0)
           (fun _ => Sample.timed_out)).
  - unfold DEFAULT_RETRIES. lia.
  - intros i Hi. assert (i = 0%nat) as -> by lia. reflexivity.
  - reflexivity.
Defined.

(** ** The token guard *)

Section AuthProperties.
Context (P : Platform).

(** The padding loop stops on its own: three rounds are enough to reach a
    length that is a multiple of four. *)
Lemma pad4_aligned base64 : (String.length (pad4 base64) mod 4 = 0)%nat.
Proof.
  assert (Hlen : forall s, String.length (s ++ "=")%string = S (String.length s)).
  { induction s as [|c s IH]; simpl; [done|by rewrite IH]. }
  unfold pad4. cbn [pad4_loop].
  repeat match goal with
         | |- context [(?n mod 4 =? 0)%nat] =>
             let E := fresh "E" in
             destruct (n mod 4 =? 0)%nat eqn:E;
             [by apply Nat.eqb_eq | apply Nat.eqb_neq in E]
         end.
  rewrite !Hlen in *.
  set (n := String.length base64) in *.
  pose proof (Nat.div_mod_eq n 4). pose proof (Nat.mod_upper_bound n 4).
  pose proof (Nat.div_mod_eq (S n) 4). pose proof (Nat.mod_upper_bound (S n) 4).
  pose proof (Nat.div_mod_eq (S (S n)) 4). pose proof (Nat.mod_upper_bound (S (S n)) 4).
  pose proof (Nat.div_mod_eq (S (S (S n))) 4).
  pose proof (Nat.mod_upper_bound (S (S (S n))) 4).
  lia.
Qed.

Lemma split_char_length sep s :
  length (JsString.split_char sep s) = S (count_char sep s).
Proof.
  induction s as [|c s IH]; simpl; [done|].
  destruct (Ascii.eqb c sep); simpl; [by rewrite IH|].
  destruct (JsString.split_char sep s); simpl in *; lia.
Qed.

Lemma malformed_no_claims token : malformed P token -> parseJwtClaims P token = JNull.
Proof.
  unfold malformed, parseJwtClaims. intros [Hlen|Hpayload].
  - apply Nat.ltb_lt in Hlen. by rewrite Hlen.
  - destruct (length (JsString.split_char "." token) <? 2)%nat; [done|].
    destruct (base64UrlDecode P _) as [decoded|]; [|done].
    specialize (Hpayload decoded eq_refl).
    destruct (negb (JsString.truthy decoded)); [done|].
    by destruct (JSON_parse P decoded).
Qed.

Lemma no_claims_unknown_expiry token w :
  parseJwtClaims P token = JNull -> tokenIsExpired P token w = None.
Proof. unfold tokenIsExpired. by intros ->. Qed.

Lemma numeric_expiry_truthy claims exp : prop_of claims "exp" = JNum exp -> truthy claims = true.
Proof. by destruct claims. Qed.

End AuthProperties.

(** C5. [tokenIsExpired]: when the decoded claims carry a numeric ["exp"], the
    answer is [true] exactly when [exp <= floor(now / 1000)] and [false]
    otherwise; when the claims cannot be decoded, or ["exp"] is absent or not
    a number, the answer is [null]. *)
Theorem tokenIsExpired_spec (P : Platform) (token : string) (w : World) :
  let claims := parseJwtClaims P token in
  let now := inject_Z (clock_ms w / 1000) in
  (forall exp, prop_of claims "exp" = JNum exp ->
     (tokenIsExpired P token w = Some true <-> (exp <= now)%Q) /\
     (tokenIsExpired P token w = Some false <-> (now < exp)%Q) /\
     tokenIsExpired P token w <> None) /\
  (claims = JNull -> tokenIsExpired P token w = None) /\
  ((forall exp, prop_of claims "exp" <> JNum exp) -> tokenIsExpired P token w = None).
Proof.
  intros claims now. subst claims now. split; [|split].
  - intros exp Hexp. unfold tokenIsExpired, now_seconds.
    rewrite (numeric_expiry_truthy _ _ Hexp), Hexp. simpl.
    destruct (Qle_bool exp (inject_Z (clock_ms w / 1000))) eqn:E.
    + apply Qle_bool_iff in E. repeat split; try done.
      intros Hlt. exfalso. apply (Qlt_not_le _ _ Hlt E).
    + assert (~ (exp <= inject_Z (clock_ms w / 1000))%Q) as Hn.
      { intros Hle. apply Qle_bool_iff in Hle. congruence. }
      repeat split; try done.
      intros _. by apply Qnot_le_lt.
  - apply no_claims_unknown_expiry.
  - intros Hnone. unfold tokenIsExpired.
    destruct (negb (truthy (parseJwtClaims P token))); [done|].
    destruct (prop_of (parseJwtClaims P token) "exp") eqn:E; try done.
    by destruct (Hnone q).
Qed.

Lemma tokenIsExpired_spec_witness :
  tokenIsExpired Sample.platform Sample.jwt (Sample.world (Some Sample.jwt) 1700000000000)
    = Some true /\
  tokenIsExpired Sample.platform Sample.jwt (Sample.world (Some Sample.jwt) 1699999999999)
    = Some false /\
  tokenIsExpired Sample.platform "not-a-jwt" (Sample.world (Some "not-a-jwt") 0) = None.
Proof.
  split; [|split].
  - apply (tokenIsExpired_spec Sample.platform Sample.jwt
             (Sample.world (Some Sample.jwt) 1700000000000)) with (exp := 1700000000 # 1).
    + reflexivity.
    + vm_compute. discriminate.
  - apply (tokenIsExpired_spec Sample.platform Sample.jwt
             (Sample.world (Some Sample.jwt) 1699999999999)) with (exp := 1700000000 # 1).
    + reflexivity.
    + vm_compute. reflexivity.
  - destruct (tokenIsExpired_spec Sample.platform "not-a-jwt"
                (Sample.world (Some "not-a-jwt") 0)) as (_ & Hnull & _).
    apply Hnull. reflexivity.
Defined.

(** C6. A malformed credential (no dot, hence fewer than two segments, or a
    payload that does not decode or parse) has no claims, and
    [ensureValidTokenOrToast] still hands it out; the guard never throws, and
    it answers [null] only when no credential is configured or when
    [tokenIsExpired] is [true]. *)
Theorem ensureValidTokenOrToast_optimistic (P : Platform) :
  (forall token, count_char "." token = 0%nat -> malformed P token) /\
  (forall token, malformed P token -> parseJwtClaims P token = JNull) /\
  (forall w token,
     getApiToken w = Some token -> malformed P token ->
     ensureValidTokenOrToast P w = (Ok (Some token), w)) /\
  (forall w, exists r w',
     ensureValidTokenOrToast P w = (Ok r, w') /\
     (r = None <->
      getApiToken w = None \/
      exists token, getApiToken w = Some token /\ tokenIsExpired P token w = Some true) /\
     (forall token, r = Some token -> getApiToken w = Some token /\ w' = w)).
Proof.
  split; [|split; [|split]].
  - intros token Hdots. left. rewrite split_char_length, Hdots. lia.
  - apply malformed_no_claims.
  - intros w token Htoken Hbad. unfold ensureValidTokenOrToast. rewrite Htoken.
    by rewrite (no_claims_unknown_expiry P token w (malformed_no_claims P token Hbad)).
  - intros w. unfold ensureValidTokenOrToast.
    destruct (getApiToken w) as [token|] eqn:Htoken.
    + destruct (tokenIsExpired P token w) as [[|]|] eqn:Hexp.
      * eexists None, _. split; [reflexivity|]. split; [|done].
        split; [|done]. intros _. right. by exists token.
      * eexists (Some token), w. split; [reflexivity|]. split.
        -- split; [done|]. intros [?|(t & Ht & Hx)]; [done|]. congruence.
        -- intros t [= ->]. done.
      * eexists (Some token), w. split; [reflexivity|]. split.
        -- split; [done|]. intros [?|(t & Ht & Hx)]; [done|]. congruence.
        -- intros t [= ->]. done.
    + eexists None, _. split; [reflexivity|]. split; [|done].
      split; [|done]. intros _. by left.
Qed.

Lemma ensureValidTokenOrToast_optimistic_witness :
  malformed Sample.platform "not-a-jwt" /\
  parseJwtClaims Sample.platform "not-a-jwt" = JNull /\
  ensureValidTokenOrToast Sample.platform (Sample.world (Some " not-a-jwt ") 0) =
    (Ok (Some "not-a-jwt"), Sample.world (Some " not-a-jwt ") 0).
Proof.
  destruct (ensureValidTokenOrToast_optimistic Sample.platform) as (Hdot & Hnull & Hok & _).
  assert (Hbad : malformed Sample.platform "not-a-jwt") by (apply Hdot; reflexivity).
  split; [exact Hbad|]. split; [apply Hnull, Hbad|].
  apply Hok; [reflexivity|exact Hbad].
Defined.

(** ** Sorting *)

Section SortProperties.
Context {A : Type} (compareFn : A -> A -> Z).

Local Abbreviation may_precede := (may_precede compareFn).

Lemma sort_insert_perm x l : sort_insert compareFn x l ≡ₚ x :: l.
Proof.
  induction l as [|y l IH]; simpl; [done|].
  destruct (0 <? compareFn x y); [|done].
  rewrite IH. apply Permutation_swap.
Qed.

Lemma js_sort_perm l : js_sort compareFn l ≡ₚ l.
Proof.
  induction l as [|x l IH]; simpl; [done|].
  by rewrite sort_insert_perm, IH.
Qed.

(** Stability: elements of a class whose members never have to overtake
    one another keep their relative order. *)
Lemma sort_insert_stable (p : A -> bool) x l :
  (forall a b, p a = true -> p b = true -> compareFn a b <= 0) ->
  List.filter p (sort_insert compareFn x l) = List.filter p (x :: l).
Proof.
  intros Hclass. induction l as [|y l IH]; [done|].
  cbn [sort_insert]. destruct (0 <? compareFn x y) eqn:E; [|done].
  apply Z.ltb_lt in E. cbn [List.filter] in *. rewrite IH.
  destruct (p x) eqn:Hx, (p y) eqn:Hy; try done.
  specialize (Hclass x y Hx Hy). lia.
Qed.

Lemma js_sort_stable (p : A -> bool) l :
  (forall a b, p a = true -> p b = true -> compareFn a b <= 0) ->
  List.filter p (js_sort compareFn l) = List.filter p l.
Proof.
  intros Hclass. induction l as [|x l IH]; [done|].
  cbn [js_sort]. rewrite sort_insert_stable by done.
  cbn [List.filter]. by rewrite IH.
Qed.

(** A consistent comparator. *)
Context (compare_flip : forall a b, 0 < compareFn a b -> compareFn b a <= 0).
Context (compare_trans : forall a b c, may_precede a b -> may_precede b c -> may_precede a c).

Lemma sort_insert_sorted x l :
  StronglySorted may_precede l -> StronglySorted may_precede (sort_insert compareFn x l).
Proof.
  induction 1 as [|y l Hsorted IH Hy]; simpl.
  - repeat constructor.
  - destruct (0 <? compareFn x y) eqn:E.
    + apply Z.ltb_lt in E. constructor; [done|].
      rewrite sort_insert_perm. constructor; [by apply compare_flip|done].
    + apply Z.ltb_ge in E. constructor; [by constructor|].
      constructor; [done|].
      eapply Forall_impl; [exact Hy|]. intros z Hz. by apply (compare_trans x y z).
Qed.

Lemma js_sort_sorted l : StronglySorted may_precede (js_sort compareFn l).
Proof.
  induction l as [|x l IH]; simpl; [constructor|by apply sort_insert_sorted].
Qed.

End SortProperties.

Lemma StronglySorted_lookup {A} (R : A -> A -> Prop) (l : list A) :
  StronglySorted R l ->
  forall i j a b, (i < j)%nat -> l !! i = Some a -> l !! j = Some b -> R a b.
Proof.
  induction 1 as [|x l Hsorted IH Hx]; intros i j a b Hij Ha Hb; [done|].
  destruct j as [|j]; [lia|]. simpl in Hb.
  destruct i as [|i]; simpl in Ha.
  - injection Ha as ->. rewrite Forall_forall in Hx. apply Hx.
    by eapply list_elem_of_lookup_2.
  - apply (IH i j); [lia|done..].
Qed.

(** ** The comparators *)

Lemma byCreationTimeDesc_flip a b :
  0 < byCreationTimeDesc a b -> byCreationTimeDesc b a <= 0.
Proof. unfold byCreationTimeDesc. lia. Qed.

Lemma byCreationTimeDesc_trans a b c :
  may_precede byCreationTimeDesc a b -> may_precede byCreationTimeDesc b c ->
  may_precede byCreationTimeDesc a c.
Proof. unfold may_precede, byCreationTimeDesc. lia. Qed.

(** Splits on the three tier tests of every item in sight. *)
Ltac case_tiers :=
  unfold relevanceCompare, JsString.eqb;
  repeat match goal with
         | |- context [String.eqb (JsString.toLowerCase (title ?a)) ?q] =>
             destruct (String.eqb (JsString.toLowerCase (title a)) q)
         | |- context [JsString.startsWith (JsString.toLowerCase (title ?a)) ?q] =>
             destruct (JsString.startsWith (JsString.toLowerCase (title a)) q)
         | |- context [JsString.includes (JsString.toLowerCase (title ?a)) ?q] =>
             destruct (JsString.includes (JsString.toLowerCase (title a)) q)
         end;
  cbn [andb negb].

Lemma relevanceCompare_flip lowerQuery a b :
  0 < relevanceCompare lowerQuery a b -> relevanceCompare lowerQuery b a <= 0.
Proof. case_tiers; lia. Qed.

Lemma relevanceCompare_antisym lowerQuery a b :
  relevanceCompare lowerQuery a b <= 0 -> ~ relevanceCompare lowerQuery b a < 0.
Proof. case_tiers; lia. Qed.

Lemma relevanceCompare_trans lowerQuery a b c :
  may_precede (relevanceCompare lowerQuery) a b ->
  may_precede (relevanceCompare lowerQuery) b c ->
  may_precede (relevanceCompare lowerQuery) a c.
Proof. unfold may_precede. case_tiers; lia. Qed.

(** The comparator of the code decides the order of the specification. *)
Lemma relevanceCompare_ranks q a b :
  relevanceCompare (JsString.toLowerCase q) a b < 0 <-> ranks_before q a b.
Proof.
  unfold ranks_before, ci_equal, ci_prefix, ci_includes.
  rewrite <- !String.eqb_eq.
  case_tiers; intuition (try discriminate; try lia).
Qed.

Lemma toLowerCase_truthy q : JsString.truthy (JsString.toLowerCase q) = JsString.truthy q.
Proof. by destruct q. Qed.

Lemma truthy_nonempty q : q <> EmptyString -> JsString.truthy q = true.
Proof. by destruct q. Qed.

(** C3. With a non-empty query, [sortByRelevance] leaves no pair out of the
    order of the specification: exact case-insensitive title match first,
    then title prefix, then title containment, then the newer item; and its
    comparator puts [a] before [b] exactly when that order does. Items titled
    "Go", "Going" and "Foo Go Bar", given in any order and with any creation
    times, come out for the query "go" as "Go", "Going", "Foo Go Bar". *)
Theorem sortByRelevance_ranks (links : list KalpaLink) :
  (forall query, query <> EmptyString ->
     ordered_by (ranks_before query) (sortByRelevance links query) /\
     forall a b,
       relevanceCompare (JsString.toLowerCase query) a b < 0 <-> ranks_before query a b) /\
  (forall a b c,
     title a = "Go" -> title b = "Going" -> title c = "Foo Go Bar" ->
     links ≡ₚ [a; b; c] ->
     sortByRelevance links "go" = [a; b; c]).
Proof.
  split.
  - intros query Hq. split; [|intros a b; apply relevanceCompare_ranks].
    unfold sortByRelevance. rewrite (truthy_nonempty query Hq). cbn [negb].
    intros i j a b Hij Ha Hb Hbefore.
    apply relevanceCompare_ranks in Hbefore.
    apply (relevanceCompare_antisym (JsString.toLowerCase query) a b); [|done].
    apply (StronglySorted_lookup _ _
             (js_sort_sorted _ (relevanceCompare_flip _) (relevanceCompare_trans _) links)
             i j a b Hij Ha Hb).
  - intros a b c Ha Hb Hc Hperm.
    unfold sortByRelevance. cbn [JsString.truthy negb JsString.toLowerCase].
    change (JsString.toLowerCase "go") with "go".
    assert (Hab : relevanceCompare "go" a b = -1)
      by (unfold relevanceCompare; rewrite Ha, Hb; reflexivity).
    assert (Hac : relevanceCompare "go" a c = -1)
      by (unfold relevanceCompare; rewrite Ha, Hc; reflexivity).
    assert (Hbc : relevanceCompare "go" b c = -1)
      by (unfold relevanceCompare; rewrite Hb, Hc; reflexivity).
    assert (Hba : relevanceCompare "go" b a = 1)
      by (unfold relevanceCompare; rewrite Ha, Hb; reflexivity).
    assert (Hca : relevanceCompare "go" c a = 1)
      by (unfold relevanceCompare; rewrite Ha, Hc; reflexivity).
    assert (Hcb : relevanceCompare "go" c b = 1)
      by (unfold relevanceCompare; rewrite Hb, Hc; reflexivity).
    apply (StronglySorted_unique_strong (may_precede (relevanceCompare "go"))).
    + intros x y Hx Hy. rewrite js_sort_perm, Hperm in Hx.
      unfold may_precede.
      rewrite !elem_of_cons, elem_of_nil in Hx, Hy.
      destruct Hx as [->|[->|[->|[]]]], Hy as [->|[->|[->|[]]]];
        rewrite ?Hab, ?Hac, ?Hbc, ?Hba, ?Hca, ?Hcb; (done || lia).
    + apply js_sort_sorted;
        [apply relevanceCompare_flip|apply relevanceCompare_trans].
    + unfold may_precede. repeat constructor; rewrite ?Hab, ?Hac, ?Hbc; lia.
    + by rewrite js_sort_perm.
Qed.

Lemma sortByRelevance_ranks_witness :
  let go := Sample.link "Go" 1 in
  let going := Sample.link "Going" 2 in
  let foo := Sample.link "Foo Go Bar" 3 in
  ordered_by (ranks_before "go") (sortByRelevance [foo; going; go] "go") /\
  sortByRelevance [foo; going; go] "go" = [go; going; foo].
Proof.
  destruct (sortByRelevance_ranks
              [Sample.link "Foo Go Bar" 3; Sample.link "Going" 2; Sample.link "Go" 1])
    as [Horder Hexample].
  split.
  - apply (Horder "go"). discriminate.
  - apply Hexample; [reflexivity..|].
    exact (Permutation_rev
             [Sample.link "Foo Go Bar" 3; Sample.link "Going" 2; Sample.link "Go" 1]).
Defined.

Lemma StronglySorted_weaken {A} (R S : A -> A -> Prop) (l : list A) :
  (forall a b, R a b -> S a b) -> StronglySorted R l -> StronglySorted S l.
Proof.
  intros Himpl. induction 1 as [|x l Hsorted IH Hx]; constructor; [done|].
  eapply Forall_impl; [exact Hx|]. intros y. apply Himpl.
Qed.

Lemma js_sort_map {A B} (f : A -> B) (cmpA : A -> A -> Z) (cmpB : B -> B -> Z) l :
  (forall a b, cmpA a b = cmpB (f a) (f b)) ->
  map f (js_sort cmpA l) = js_sort cmpB (map f l).
Proof.
  intros Hcmp.
  assert (Hins : forall x s, map f (sort_insert cmpA x s) = sort_insert cmpB (f x) (map f s)).
  { intros x s. induction s as [|y s IH]; simpl; [done|].
    rewrite <- Hcmp. destruct (0 <? cmpA x y); simpl; [by rewrite IH|done]. }
  induction l as [|x l IH]; simpl; [done|]. by rewrite Hins, IH.
Qed.

(** ** The aggregation *)

Lemma useAllLinks_success client opts w r1 w1 r2 w2 r3 w3 :
  let n := number_or (opt_numItems opts) 100 in
  let fetchOpts :=
    {| opt_search := opt_search opts; opt_universeId := opt_universeId opts;
       opt_tagId := opt_tagId opts; opt_hideRead := opt_hideRead opts;
       opt_hideArchived := opt_hideArchived opts; opt_numItems := Some n |} in
  client_getLinks client fetchOpts w = (Ok r1, w1) ->
  client_getVideos client fetchOpts w1 = (Ok r2, w2) ->
  client_getCodepenLinks client n (opt_universeId opts) w2 = (Ok r3, w3) ->
  useAllLinks client opts w =
    (Ok (js_sort byCreationTimeDesc (resp_page r1 ++ resp_page r2 ++ resp_page r3)), w3).
Proof.
  intros n fetchOpts H1 H2 H3. unfold useAllLinks, try_catch, bind.
  fold n. fold fetchOpts. by rewrite H1, H2, H3.
Qed.

(** C4. When the three sub-fetches succeed, [useAllLinks] returns their pages
    concatenated in the order links, videos, CodePen links and sorted by
    descending creation time: the result is a permutation of the
    concatenation, no item stands before a newer one, and the items of one
    creation time keep the order they have in the concatenation. Pages with
    creation times [5,3], [4] and [2,1] merge to [5,4,3,2,1], whatever the
    kinds of the items. *)
Theorem useAllLinks_merges_by_recency
    (client : LinksClient) (opts : LinkSearchOptions) (w w1 w2 w3 : World)
    (r1 r2 r3 : PaginatedResponse) :
  let n := number_or (opt_numItems opts) 100 in
  let fetchOpts :=
    {| opt_search := opt_search opts; opt_universeId := opt_universeId opts;
       opt_tagId := opt_tagId opts; opt_hideRead := opt_hideRead opts;
       opt_hideArchived := opt_hideArchived opts; opt_numItems := Some n |} in
  client_getLinks client fetchOpts w = (Ok r1, w1) ->
  client_getVideos client fetchOpts w1 = (Ok r2, w2) ->
  client_getCodepenLinks client n (opt_universeId opts) w2 = (Ok r3, w3) ->
  let all := resp_page r1 ++ resp_page r2 ++ resp_page r3 in
  exists merged,
    useAllLinks client opts w = (Ok merged, w3) /\
    merged ≡ₚ all /\
    StronglySorted (fun a b => creationTime b <= creationTime a) merged /\
    (forall t, List.filter (fun x => creationTime x =? t) merged =
               List.filter (fun x => creationTime x =? t) all) /\
    (map creationTime (resp_page r1) = [5; 3] ->
     map creationTime (resp_page r2) = [4] ->
     map creationTime (resp_page r3) = [2; 1] ->
     map creationTime merged = [5; 4; 3; 2; 1]).
Proof.
  intros n fetchOpts H1 H2 H3 all.
  exists (js_sort byCreationTimeDesc all).
  split; [by apply (useAllLinks_success client opts w r1 w1 r2 w2 r3 w3)|].
  split; [apply js_sort_perm|].
  split; [|split].
  - eapply StronglySorted_weaken;
      [|apply (js_sort_sorted byCreationTimeDesc byCreationTimeDesc_flip
                 byCreationTimeDesc_trans)].
    unfold may_precede, byCreationTimeDesc. intros a b. lia.
  - intros t. apply js_sort_stable. intros a b Ha Hb.
    apply Z.eqb_eq in Ha, Hb. unfold byCreationTimeDesc. lia.
  - subst all. intros Hl Hv Hc.
    rewrite (js_sort_map creationTime byCreationTimeDesc (fun x y => y - x)) by done.
    rewrite !map_app, Hl, Hv, Hc. reflexivity.
Qed.

Lemma useAllLinks_merges_by_recency_witness :
  let client :=
    Sample.fixed_client (Sample.page_of [5; 3]) (Sample.page_of [4]) (Sample.page_of [2; 1]) in
  let w := Sample.world None 0 in
  exists merged,
    useAllLinks client Sample.options w = (Ok merged, w) /\
    map creationTime merged = [5; 4; 3; 2; 1].
Proof.
  destruct (useAllLinks_merges_by_recency
              (Sample.fixed_client (Sample.page_of [5; 3]) (Sample.page_of [4])
                 (Sample.page_of [2; 1]))
              Sample.options (Sample.world None 0) (Sample.world None 0)
              (Sample.world None 0) (Sample.world None 0)
              (Sample.page_of [5; 3]) (Sample.page_of [4]) (Sample.page_of [2; 1])
              eq_refl eq_refl eq_refl)
    as (merged & Hrun & _ & _ & _ & Hexample).
  exists merged. split; [exact Hrun|]. apply Hexample; reflexivity.
Defined.

(** When the token guard refuses, a links query throws the error
    "Authentication required" without touching the network. *)
Lemma linksQuery_guard_refuses P net this args w w' :
  ensureValidTokenOrToast P w = (Ok None, w') ->
  linksQuery P net this args w = (Throw authentication_required, w').
Proof. intros Hguard. unfold linksQuery, bind. by rewrite Hguard. Qed.

(** The token the guard hands out is never empty. *)
Lemma ensureValidTokenOrToast_truthy P w token w' :
  ensureValidTokenOrToast P w = (Ok (Some token), w') -> JsString.truthy token = true.
Proof.
  unfold ensureValidTokenOrToast, getApiToken.
  destruct (prefs_apiToken w) as [raw|]; [|discriminate].
  destruct (JsString.truthy (JsString.trim raw) && _) eqn:E; [|discriminate].
  apply andb_prop in E as [E _].
  destruct (tokenIsExpired P (JsString.trim raw) w) as [[|]|];
    (discriminate || by intros [= <- _]).
Qed.

(** C2, as the code has it. The first sub-fetch that throws ends the
    aggregation: the error is logged and no further sub-fetch is issued. If
    it is an [Error] whose message contains "Authentication" (as the error
    "Authentication required" of a refusing token guard does) the result is
    the empty sequence; any other thrown value propagates unchanged. *)
Theorem useAllLinks_first_error
    (client : LinksClient) (opts : LinkSearchOptions) (w w' : World) (error : Thrown) :
  let n := number_or (opt_numItems opts) 100 in
  let fetchOpts :=
    {| opt_search := opt_search opts; opt_universeId := opt_universeId opts;
       opt_tagId := opt_tagId opts; opt_hideRead := opt_hideRead opts;
       opt_hideArchived := opt_hideArchived opts; opt_numItems := Some n |} in
  (client_getLinks client fetchOpts w = (Throw error, w') \/
   (exists r1 w1,
      client_getLinks client fetchOpts w = (Ok r1, w1) /\
      client_getVideos client fetchOpts w1 = (Throw error, w')) \/
   (exists r1 w1 r2 w2,
      client_getLinks client fetchOpts w = (Ok r1, w1) /\
      client_getVideos client fetchOpts w1 = (Ok r2, w2) /\
      client_getCodepenLinks client n (opt_universeId opts) w2 = (Throw error, w'))) ->
  useAllLinks client opts w =
    ((if is_auth_error error then Ok [] else Throw error),
     log (EvConsoleError "useAllLinks error:" error) w') /\
  is_auth_error authentication_required = true /\
  (forall e, error = ThrownError e ->
     JsString.includes (err_message e) "Authentication" = false ->
     fst (useAllLinks client opts w) = Throw error) /\
  (forall v, error = ThrownValue v -> fst (useAllLinks client opts w) = Throw error).
Proof.
  intros n fetchOpts Hfirst.
  assert (Hrun : useAllLinks client opts w =
                 ((if is_auth_error error then Ok [] else Throw error),
                  log (EvConsoleError "useAllLinks error:" error) w')).
  { unfold useAllLinks, try_catch, bind. fold n. fold fetchOpts.
    destruct Hfirst as [H1|[(r1 & w1 & H1 & H2)|(r1 & w1 & r2 & w2 & H1 & H2 & H3)]].
    - rewrite H1. unfold console_error. by destruct (is_auth_error error).
    - rewrite H1, H2. unfold console_error. by destruct (is_auth_error error).
    - rewrite H1, H2, H3. unfold console_error. by destruct (is_auth_error error). }
  split; [exact Hrun|]. split; [reflexivity|]. split.
  - intros e -> Hmsg. rewrite Hrun. simpl. by rewrite Hmsg.
  - intros v ->. by rewrite Hrun.
Qed.

(** The credential expires while the first sub-fetch backs off: the guard of
    the video sub-fetch refuses, and the aggregation answers with the empty
    sequence. *)
Lemma useAllLinks_first_error_witness :
  let client :=
    kalpa_client Sample.platform (Sample.net_flaky Sample.empty_object) Sample.as_page
      Sample.client in
  let w := Sample.world (Some Sample.jwt) 1699999999900 in
  exists w',
    useAllLinks client Sample.options w = (Ok [], w') /\
    toasts (events w') = [expired_token_toast] /\
    sleeps (events w') = [300].
Proof.
  eexists. split.
  - refine (proj1 (useAllLinks_first_error
                     (kalpa_client Sample.platform (Sample.net_flaky Sample.empty_object)
                        Sample.as_page Sample.client)
                     Sample.options (Sample.world (Some Sample.jwt) 1699999999900)
                     _ authentication_required _)).
    right. left. exists Sample.empty_page. eexists. split; reflexivity.
  - split; reflexivity.
Defined.

(** C2 as stated fails: an answer of status 500 whose body mentions
    "Authentication" makes the links sub-fetch throw an error that is not the
    authentication-required error, and the aggregation returns the empty
    sequence instead of propagating it. *)
Lemma useAllLinks_swallows_server_error :
  let client :=
    kalpa_client Sample.platform (Sample.net_answers Sample.server_error) Sample.as_page
      Sample.client in
  let w := Sample.world (Some "opaque-token") 0 in
  let thrown :=
    ThrownError (new_Error "Links query failed: Authentication backend unavailable") in
  fst (ensureValidTokenOrToast Sample.platform w) = Ok (Some "opaque-token") /\
  fst (client_getLinks client Sample.fetch_options w) = Throw thrown /\
  thrown <> authentication_required /\
  fst (useAllLinks client Sample.options w) = Ok [] /\
  fst (useAllLinks client Sample.options w) <> Throw thrown.
Proof.
  repeat split; try reflexivity; vm_compute; discriminate.
Qed.

(** ** Keywords and matching *)

Lemma lower_char_idem c : JsString.lower_char (JsString.lower_char c) = JsString.lower_char c.
Proof. destruct c as [[] [] [] [] [] [] [] []]; reflexivity. Qed.

Lemma toLowerCase_idem s :
  JsString.toLowerCase (JsString.toLowerCase s) = JsString.toLowerCase s.
Proof.
  induction s as [|c s IH]; simpl; [done|]. by rewrite lower_char_idem, IH.
Qed.

(** The tokens of a lower-case string are lower-case. *)
Lemma split_ws_from_lower prev s :
  JsString.toLowerCase s = s ->
  Forall (fun k => JsString.toLowerCase k = k) (JsString.split_ws_from prev s).
Proof.
  revert prev. induction s as [|c s IH]; intros prev Hs; simpl.
  - by repeat constructor.
  - simpl in Hs. injection Hs as Hc Hs.
    destruct (JsString.is_space c).
    + destruct prev; [by apply IH|]. constructor; [done|by apply IH].
    + specialize (IH false Hs).
      destruct (JsString.split_ws_from false s) as [|tok rest].
      * repeat constructor. simpl. by rewrite Hc.
      * inversion IH as [|? ? Htok Hrest]; subst.
        constructor; [|done]. simpl. by rewrite Hc, Htok.
Qed.

Lemma elem_of_dedup_from seen l k :
  k ∈ dedup_from seen l <-> k ∈ l /\ k ∉ seen.
Proof.
  revert seen. induction l as [|x l IH]; intros seen; simpl.
  - rewrite elem_of_nil. tauto.
  - destruct (existsb (String.eqb x) seen) eqn:E.
    + apply existsb_exists in E as (y & Hy & Hxy).
      apply String.eqb_eq in Hxy as <-. apply list_elem_of_In in Hy.
      rewrite IH, elem_of_cons. split; [tauto|].
      intros [[->|Hk] Hseen]; [done|tauto].
    + assert (x ∉ seen) as Hx.
      { intros Hin. apply list_elem_of_In in Hin.
        assert (existsb (String.eqb x) seen = true) as Hex; [|congruence].
        apply existsb_exists. exists x. split; [done|apply String.eqb_refl]. }
      rewrite !elem_of_cons, IH, elem_of_cons. split.
      * intros [->|[Hk Hseen]]; [tauto|]. split; [tauto|]. intros Hin. apply Hseen. by right.
      * intros [[->|Hk] Hseen]; [by left|].
        destruct (decide (k = x)) as [->|Hne]; [by left|].
        right. split; [done|]. intros [->|Hin]; done.
Qed.

Lemma NoDup_dedup_from seen l : NoDup (dedup_from seen l).
Proof.
  revert seen. induction l as [|x l IH]; intros seen; simpl; [constructor|].
  destruct (existsb (String.eqb x) seen); [apply IH|].
  constructor; [|apply IH].
  rewrite elem_of_dedup_from, elem_of_cons. tauto.
Qed.

Lemma elem_of_dedup l k : k ∈ dedup l <-> k ∈ l.
Proof. unfold dedup. rewrite elem_of_dedup_from, elem_of_nil. tauto. Qed.

(** The keywords before deduplication. *)
Lemma elem_of_extractKeywords link k :
  k ∈ extractKeywords link <->
  k ∈ JsString.split_ws (JsString.toLowerCase (title link)) \/
  k = JsString.toLowerCase (formatDomain (domain link)) \/
  (exists ts t, tags link = Some ts /\ t ∈ ts /\ k = JsString.toLowerCase (tag_name t)) \/
  (exists us u, universes link = Some us /\ u ∈ us /\
                k = JsString.toLowerCase (universe_name u)) \/
  (exists t, linkType link = Some t /\ k = LinkType_label t).
Proof.
  unfold extractKeywords. rewrite elem_of_dedup.
  destruct (tags link) as [ts|], (universes link) as [us|], (linkType link) as [t|];
    rewrite ?elem_of_app, ?list_elem_of_fmap, ?list_elem_of_singleton;
    repeat setoid_rewrite list_elem_of_fmap; naive_solver.
Qed.

Lemma extractKeywords_lower link k :
  k ∈ extractKeywords link -> JsString.toLowerCase k = k.
Proof.
  rewrite elem_of_extractKeywords.
  intros [Hk|[->|[(ts & t & _ & _ & ->)|[(us & u & _ & _ & ->)|(t & _ & ->)]]]].
  - pose proof (split_ws_from_lower false _ (toLowerCase_idem (title link))) as Hall.
    rewrite Forall_forall in Hall. by apply Hall.
  - apply toLowerCase_idem.
  - apply toLowerCase_idem.
  - apply toLowerCase_idem.
  - by destruct t.
Qed.

(** C8. The empty query matches every item. A non-empty query matches an
    item exactly when it occurs, case-insensitively, in one of the item's
    keywords, in its title, in its URL or in its summary. The keywords are
    the words of the lower-cased title, the lower-cased domain without a
    leading "www.", the lower-cased names of the tags and of the universes,
    and the label of the link type, each listed once. *)
Theorem matchesSearch_spec (link : KalpaLink) :
  matchesSearch link EmptyString = true /\
  (forall query, query <> EmptyString ->
     (matchesSearch link query = true <->
      (exists k, k ∈ extractKeywords link /\ ci_includes k query) \/
      ci_includes (title link) query \/
      ci_includes (url link) query \/
      (exists s, summary_preview link = Some s /\ ci_includes s query))) /\
  (forall k,
     k ∈ extractKeywords link <->
     k ∈ JsString.split_ws (JsString.toLowerCase (title link)) \/
     k = JsString.toLowerCase (formatDomain (domain link)) \/
     (exists ts t, tags link = Some ts /\ t ∈ ts /\ k = JsString.toLowerCase (tag_name t)) \/
     (exists us u, universes link = Some us /\ u ∈ us /\
                   k = JsString.toLowerCase (universe_name u)) \/
     (exists t, linkType link = Some t /\ k = LinkType_label t)) /\
  NoDup (extractKeywords link).
Proof.
  split; [reflexivity|]. split; [|split].
  - intros query Hq. unfold matchesSearch, ci_includes.
    rewrite (truthy_nonempty query Hq). cbn [negb].
    destruct (existsb _ (extractKeywords link)) eqn:Ekw.
    { split; [intros _|done]. left.
      apply existsb_exists in Ekw as (k & Hk & Hinc).
      apply list_elem_of_In in Hk. exists k. split; [done|].
      by rewrite (extractKeywords_lower link k Hk). }
    assert (Hnokw : ~ exists k, k ∈ extractKeywords link /\
                      JsString.includes (JsString.toLowerCase k)
                        (JsString.toLowerCase query) = true).
    { intros (k & Hk & Hinc). rewrite (extractKeywords_lower link k Hk) in Hinc.
      assert (existsb (fun k => JsString.includes k (JsString.toLowerCase query))
                (extractKeywords link) = true) as Hex; [|congruence].
      apply existsb_exists. exists k. split; [by apply list_elem_of_In|done]. }
    destruct (JsString.includes (JsString.toLowerCase (title link)) _) eqn:Et;
      [split; [tauto|done]|].
    destruct (JsString.includes (JsString.toLowerCase (url link)) _) eqn:Eu;
      [split; [tauto|done]|].
    destruct (summary_preview link) as [s|].
    + destruct (JsString.includes (JsString.toLowerCase s) _) eqn:Es.
      * split; [|done]. intros _. do 3 right. by exists s.
      * split; [done|]. intros [?|[?|[?|(s' & [= <-] & Hs)]]]; try done. congruence.
    + split; [done|]. intros [?|[?|[?|(s' & [=] & _)]]]; done.
  - apply elem_of_extractKeywords.
  - apply NoDup_dedup_from.
Qed.

Lemma matchesSearch_spec_witness :
  let link :=
    {| link_id := "k1"; creationTime := 7; url := "https://www.Example.com/Docs";
       title := "Rocq Handbook"; domain := "www.Example.com"; linkType := Some youtube;
       is_read := false; is_archived := false; summary_preview := Some "Proof assistant";
       tags := Some [{| tag_id := "t1"; tag_creationTime := 1; tag_name := "Logic";
                        tag_color := "#a78bfa" |}];
       universes := None |} in
  extractKeywords link = ["rocq"; "handbook"; "example.com"; "logic"; "youtube"] /\
  matchesSearch link "LOGIC" = true /\
  matchesSearch link "assist" = true /\
  matchesSearch link "haskell" = false.
Proof.
  split; [reflexivity|]. split; [|split; reflexivity].
  apply matchesSearch_spec; [discriminate|].
  left. exists "logic". split; [|reflexivity].
  apply list_elem_of_In. simpl. tauto.
Defined.

(** ** Copying before sorting *)

Lemma sortByRelevance_perm links query : sortByRelevance links query ≡ₚ links.
Proof.
  unfold sortByRelevance. destruct (negb (JsString.truthy query)); apply js_sort_perm.
Qed.

Lemma sortByRelevance_compareFn_sorts links query :
  js_sort (sortByRelevance_compareFn query) links = sortByRelevance links query.
Proof.
  unfold sortByRelevance, sortByRelevance_compareFn.
  by destruct (negb (JsString.truthy query)).
Qed.

(** C10. For every array and every query, empty or not, [sortByRelevance]
    returns a new array, one that was not allocated before the call, whose
    elements are a permutation of the elements of its argument, and it leaves
    the argument and every other array as they were. *)
Theorem sortByRelevance_copies
    (h : Heap) (links : loc) (elems : list KalpaLink) (query : string) :
  h !! links = Some elems ->
  exists result h',
    sortByRelevance_ref links query h = Some (result, h') /\
    h !! result = None /\
    result <> links /\
    h' !! result = Some (sortByRelevance elems query) /\
    sortByRelevance elems query ≡ₚ elems /\
    h' !! links = Some elems /\
    (forall other, other <> result -> h' !! other = h !! other).
Proof.
  intros Hlinks.
  assert (Hfresh : h !! fresh (dom h) = None).
  { apply not_elem_of_dom. apply is_fresh. }
  exists (fresh (dom h)), (<[fresh (dom h) := sortByRelevance elems query]> h).
  assert (Hne : fresh (dom h) <> links) by congruence.
  split; [|split; [done|split; [done|split; [|split; [|split]]]]].
  - unfold sortByRelevance_ref, array_spread, array_sort. rewrite Hlinks.
    rewrite lookup_insert_eq, insert_insert_eq.
    by rewrite sortByRelevance_compareFn_sorts.
  - apply lookup_insert_eq.
  - apply sortByRelevance_perm.
  - by rewrite lookup_insert_ne.
  - intros other Hother. by rewrite lookup_insert_ne.
Qed.

Lemma sortByRelevance_copies_witness :
  exists result h',
    sortByRelevance_ref 1%positive "" Sample.heap = Some (result, h') /\
    h' !! result = Some [Sample.link "newer" 2; Sample.link "older" 1] /\
    h' !! 1%positive = Some [Sample.link "older" 1; Sample.link "newer" 2].
Proof.
  assert (Hlinks : Sample.heap !! 1%positive =
                   Some [Sample.link "older" 1; Sample.link "newer" 2])
    by (vm_compute; reflexivity).
  destruct (sortByRelevance_copies Sample.heap 1%positive _ "" Hlinks)
    as (result & h' & Hrun & _ & _ & Hresult & _ & Hkept & _).
  exists result, h'. split; [exact Hrun|]. split; [exact Hresult|exact Hkept].
Defined.

(** ** Reporting HTTP errors *)

Lemma extract_error_message_reported P what response :
  js_String P (extract_error_message P (resp_text response) (failed_status what response)) =
  reported_message P what response.
Proof.
  unfold extract_error_message, reported_message, failed_status.
  destruct (JSON_parse P (resp_text response)) as [body|t].
  - destruct body; simpl; try (by destruct (resp_text response)).
    unfold js_or.
    destruct (truthy (match assoc "details" fields with Some x => x | None => JUndefined end));
      [done|].
    by destruct (truthy (match assoc "error" fields with Some x => x | None => JUndefined end)).
  - by destruct (resp_text response).
Qed.

(** C9, as the code has it, for [query], [getUniverses] and [saveLink]. When
    the token guard passes and the answer has a non-2xx status, the operation
    throws one error, whose message is [reported_message], and shows the
    "Authentication Required" notice exactly when the status is 401; nothing
    else is thrown on the way. *)
Theorem http_errors_reported
    (P : Platform) (net : Network) (this : KalpaClient)
    (w w1 w2 : World) (token : string) (response : Response) :
  ensureValidTokenOrToast P w = (Ok (Some token), w1) ->
  resp_ok response = false ->
  let report what :=
    @Throw JSValue (ThrownError (new_Error (reported_message P what response))) in
  let after :=
    if (resp_status response =? 401)%nat then log (EvToast auth_required_toast) w2 else w2 in
  (forall apiPath args,
     fetchWithRetry P net this (query_request this apiPath args w1) DEFAULT_RETRIES w1 =
       (Ok response, w2) ->
     query P net this apiPath args w = (report "Query failed", after)) /\
  (fetchWithRetry P net this (universes_request this token) DEFAULT_RETRIES w1 =
     (Ok response, w2) ->
   getUniverses P net this w = (report "Query failed", after)) /\
  (forall request,
     fetchWithRetry P net this (save_request this request w1) DEFAULT_RETRIES w1 =
       (Ok response, w2) ->
     saveLink P net this request w = (report "Failed to save link", after)) /\
  (toasts (events after) =
     toasts (events w2) ++
     (if (resp_status response =? 401)%nat then [auth_required_toast] else [])).
Proof.
  intros Hguard Hbad report after. subst report after.
  pose proof (ensureValidTokenOrToast_truthy P w token w1 Hguard) as Htoken.
  split; [|split; [|split]].
  - intros apiPath args Hfetch. unfold query, bind, require_token.
    rewrite Hguard, Htoken. unfold ret at 1. rewrite Hfetch, Hbad.
    cbn [negb]. unfold throw_message. rewrite extract_error_message_reported.
    by destruct (resp_status response =? 401)%nat.
  - intros Hfetch. unfold getUniverses, bind, require_token.
    rewrite Hguard, Htoken. unfold ret at 1. rewrite Hfetch, Hbad.
    cbn [negb]. unfold throw_message. rewrite extract_error_message_reported.
    by destruct (resp_status response =? 401)%nat.
  - intros request Hfetch. unfold saveLink, bind, require_token.
    rewrite Hguard, Htoken. unfold ret at 1. rewrite Hfetch, Hbad.
    cbn [negb]. unfold throw_message. rewrite extract_error_message_reported.
    by destruct (resp_status response =? 401)%nat.
  - destruct (resp_status response =? 401)%nat; simpl;
      [apply toasts_app|by rewrite app_nil_r].
Qed.

Lemma http_errors_reported_witness :
  let w := Sample.world (Some "opaque-token") 0 in
  exists w',
    query Sample.platform (Sample.net_answers Sample.unauthorized) Sample.client
      "links" (JObj []) w = (Throw (ThrownError (new_Error "Unauthorized")), w') /\
    toasts (events w') = [auth_required_toast].
Proof.
  eexists. split.
  - refine (proj1 (http_errors_reported Sample.platform
                     (Sample.net_answers Sample.unauthorized) Sample.client
                     (Sample.world (Some "opaque-token") 0) _ _ "opaque-token"
                     Sample.unauthorized eq_refl eq_refl) "links" (JObj []) _).
    reflexivity.
  - reflexivity.
Defined.

(** C9 as stated fails. An answer of status 500 whose body is the empty JSON
    object has no [details] and no [error]: [query] reports its default
    message, which is neither a field of the body nor the raw body text. And
    [linksQuery], on an answer of status 401, shows no notice and prefixes the
    raw body text. *)
Lemma http_error_message_not_as_stated :
  let w := Sample.world (Some "opaque-token") 0 in
  let r1 := query Sample.platform (Sample.net_answers Sample.no_fields) Sample.client
              "links" (JObj []) w in
  let r2 := linksQuery Sample.platform (Sample.net_answers Sample.unauthorized)
              Sample.client (JObj []) w in
  JSON_parse Sample.platform (resp_text Sample.no_fields) = Ok (JObj []) /\
  fst r1 = Throw (ThrownError (new_Error "Query failed (500)")) /\
  "Query failed (500)" <> resp_text Sample.no_fields /\
  fst r2 = Throw (ThrownError (new_Error "Links query failed: Unauthorized")) /\
  "Links query failed: Unauthorized" <> resp_text Sample.unauthorized /\
  toasts (events (snd r2)) = [].
Proof.
  repeat split; try reflexivity; vm_compute; discriminate.
Qed.

(** * Further properties *)

(** ** Effects compose *)

Lemma sum_Z_app l1 l2 : sum_Z (l1 ++ l2) = sum_Z l1 + sum_Z l2.
Proof. induction l1 as [|x l1 IH]; simpl; lia. Qed.

Lemma steps_refl w : steps w w [].
Proof. unfold steps. simpl. symmetry. apply advance_zero. Qed.

Lemma steps_trans w w1 w2 evs1 evs2 :
  steps w w1 evs1 -> steps w1 w2 evs2 -> steps w w2 (evs1 ++ evs2).
Proof.
  unfold steps. intros -> ->.
  by rewrite advance_advance, sleeps_app, attempts_app, sum_Z_app.
Qed.

Lemma steps_toast w t : steps w (log (EvToast t) w) [EvToast t].
Proof.
  unfold steps, advance, log, attempts. simpl. f_equal; lia.
Qed.

Lemma steps_console w label t :
  steps w (log (EvConsoleError label t) w) [EvConsoleError label t].
Proof.
  unfold steps, advance, log, attempts. simpl. f_equal; lia.
Qed.

Lemma sum_Z_delays from k :
  sum_Z (map (fun i => BASE_BACKOFF_MS * 2 ^ Z.of_nat i) (seq from k)) =
  BASE_BACKOFF_MS * 2 ^ Z.of_nat from * (2 ^ Z.of_nat k - 1).
Proof.
  revert from. induction k as [|k IH]; intros from.
  - simpl. lia.
  - cbn [seq map sum_Z]. rewrite IH.
    rewrite !Nat2Z.inj_succ, !Z.pow_succ_r by lia. lia.
Qed.

Section RetryBound.
Context (P : Platform) (net : Network) (this : KalpaClient) (req : Request).
Context (retries : nat).

(** What one run of the loop does, whatever the network answers. *)
Lemma retry_loop_steps remaining :
  forall attempt lastError w,
  (attempt + remaining = S retries)%nat ->
  exists evs s,
    steps w (snd (retry_loop P net this req retries remaining attempt lastError w)) evs /\
    (attempts evs <= remaining)%nat /\
    (1 <= remaining -> 1 <= attempts evs)%nat /\
    (s = 0 \/ attempt + s <= retries)%nat /\
    sleeps evs = map (fun i => BASE_BACKOFF_MS * 2 ^ Z.of_nat i) (seq attempt s) /\
    match fst (retry_loop P net this req retries remaining attempt lastError w) with
    | Ok _ => toasts evs = []
    | Throw _ =>
        toasts evs = [connection_failed_toast this retries] /\ attempts evs = remaining
    end.
Proof.
  induction remaining as [|remaining IH]; intros attempt lastError w Hsum.
  - exists [EvToast (connection_failed_toast this retries)], 0%nat.
    cbn [retry_loop]. unfold bind, showToast, throw. cbn [fst snd].
    split; [apply steps_toast|]. repeat split; unfold attempts, sleeps, toasts; simpl; (lia || done || auto).
  - cbn [retry_loop]. unfold fetchWithTimeout.
    set (w1 := mkWorld (prefs_apiToken w) (clock_ms w) (S (fetch_count w))
                       (events w ++ [EvFetch req (timeout this)])).
    assert (Hfetch : steps w w1 [EvFetch req (timeout this)]).
    { unfold steps, advance, attempts, w1. simpl. f_equal; lia. }
    destruct (net (fetch_count w) req (timeout this)) as [response|error].
    + exists [EvFetch req (timeout this)], 0%nat. cbn [fst snd].
      split; [exact Hfetch|]. repeat split; unfold attempts, sleeps, toasts; simpl; (lia || done || auto).
    + destruct (attempt <? retries)%nat eqn:Hlt.
      * apply Nat.ltb_lt in Hlt. unfold bind at 1, sleep.
        set (w2 := mkWorld _ _ _ _).
        destruct (IH (S attempt) (Some (capture P error)) w2 ltac:(lia))
          as (evs & s & Hsteps & Hmax & Hmin & Hs & Hsleeps & Hend).
        exists ([EvFetch req (timeout this); EvSleep (BASE_BACKOFF_MS * 2 ^ Z.of_nat attempt)]
                  ++ evs), (S s).
        split.
        { eapply steps_trans; [|exact Hsteps].
          unfold steps, advance, attempts, w2, w1. simpl.
          f_equal; [lia|lia|by rewrite <- app_assoc]. }
        rewrite attempts_app, sleeps_app. cbn [seq map].
        change (attempts [EvFetch req (timeout this);
                          EvSleep (BASE_BACKOFF_MS * 2 ^ Z.of_nat attempt)]) with 1%nat.
        change (sleeps [EvFetch req (timeout this);
                        EvSleep (BASE_BACKOFF_MS * 2 ^ Z.of_nat attempt)])
          with [BASE_BACKOFF_MS * 2 ^ Z.of_nat attempt].
        split; [lia|]. split; [lia|]. split; [lia|].
        split; [simpl; by rewrite Hsleeps|].
        destruct (fst _); rewrite toasts_app; [done|].
        destruct Hend as [-> ->]. split; [done|]. lia.
      * apply Nat.ltb_ge in Hlt. assert (remaining = 0%nat) as -> by lia.
        exists [EvFetch req (timeout this); EvToast (connection_failed_toast this retries)],
               0%nat.
        unfold bind, ret, showToast, throw. cbn [retry_loop fst snd].
        split.
        { change [EvFetch req (timeout this); EvToast (connection_failed_toast this retries)]
            with ([EvFetch req (timeout this)]
                    ++ [EvToast (connection_failed_toast this retries)]).
          eapply steps_trans; [exact Hfetch|apply steps_toast]. }
        repeat split; unfold attempts, sleeps, toasts; simpl; (lia || done || auto).
Qed.

End RetryBound.

(** X1. Whatever the network does, [fetchWithRetry] calls it at least once
    and at most [retries + 1] times, sleeps an initial part of the schedule
    300, 600, 1200, ... of at most [retries] delays, hence at most
    [300 * (2^retries - 1)] ms in all, and touches nothing else. It shows no
    notice when it returns a response; when it throws it has used every
    attempt and shown the "Connection Failed" notice once. *)
Theorem fetchWithRetry_bounded
    (P : Platform) (net : Network) (this : KalpaClient) (req : Request)
    (retries : nat) (w : World) :
  exists evs s,
    steps w (snd (fetchWithRetry P net this req retries w)) evs /\
    (1 <= attempts evs <= retries + 1)%nat /\
    (s <= retries)%nat /\
    sleeps evs = map (fun i => 300 * 2 ^ Z.of_nat i) (seq 0 s) /\
    0 <= sum_Z (sleeps evs) <= 300 * (2 ^ Z.of_nat retries - 1) /\
    match fst (fetchWithRetry P net this req retries w) with
    | Ok _ => toasts evs = []
    | Throw _ =>
        toasts evs = [connection_failed_toast this retries] /\
        attempts evs = (retries + 1)%nat
    end.
Proof.
  unfold fetchWithRetry.
  destruct (retry_loop_steps P net this req retries (S retries) 0 None w eq_refl)
    as (evs & s & Hsteps & Hmax & Hmin & Hs & Hsleeps & Hend).
  exists evs, s. split; [exact Hsteps|]. split; [lia|]. split; [lia|].
  split; [exact Hsleeps|]. split.
  - rewrite Hsleeps, sum_Z_delays. unfold BASE_BACKOFF_MS. simpl (2 ^ Z.of_nat 0).
    assert (1 <= 2 ^ Z.of_nat s <= 2 ^ Z.of_nat retries).
    { split; [|apply Z.pow_le_mono_r; lia].
      replace 1 with (2 ^ 0) by reflexivity. apply Z.pow_le_mono_r; lia. }
    lia.
  - destruct (fst _); [done|]. destruct Hend as [-> ->]. split; [done|lia].
Qed.

(** ** Bounds on the effects of the operations *)

Lemma within_weaken {A} (m : M A) n ms n' ms' :
  within m n ms -> (n <= n')%nat -> (ms <= ms')%nat -> within m n' ms'.
Proof.
  intros Hm Hn Hms w. destruct (Hm w) as (evs & Hsteps & Hcalls & Hsleep).
  exists evs. split; [done|]. split; lia.
Qed.

Lemma within_pure {A} (r : Result A) : within (lift r) 0 0.
Proof. intros w. exists []. split; [apply steps_refl|]. unfold attempts, sleeps; simpl. split; lia. Qed.

Lemma within_ret {A} (a : A) : within (ret a) 0 0.
Proof. apply (within_pure (Ok a)). Qed.

Lemma within_throw {A} (t : Thrown) : within (@throw A t) 0 0.
Proof. apply (within_pure (Throw t)). Qed.

Lemma within_showToast t : within (showToast t) 0 0.
Proof.
  intros w. exists [EvToast t]. split; [apply steps_toast|]. unfold attempts, sleeps; simpl. split; lia.
Qed.

Lemma within_console_error label t : within (console_error label t) 0 0.
Proof.
  intros w. exists [EvConsoleError label t]. split; [apply steps_console|].
  unfold attempts, sleeps; simpl. split; lia.
Qed.

Lemma within_bind {A B} (m : M A) (k : A -> M B) n1 ms1 n2 ms2 :
  within m n1 ms1 -> (forall a, within (k a) n2 ms2) ->
  within (bind m k) (n1 + n2) (ms1 + ms2)%nat.
Proof.
  intros Hm Hk w. unfold bind.
  destruct (Hm w) as (evs1 & Hsteps1 & Hcalls1 & Hsleep1).
  destruct (m w) as [[a|t] w1]; cbn [snd] in *.
  - destruct (Hk a w1) as (evs2 & Hsteps2 & Hcalls2 & Hsleep2).
    exists (evs1 ++ evs2). split; [by eapply steps_trans|].
    rewrite attempts_app, sleeps_app, sum_Z_app. split; lia.
  - exists evs1. split; [done|]. split; lia.
Qed.

Lemma within_try_catch {A} (m : M A) (h : Thrown -> M A) n1 ms1 n2 ms2 :
  within m n1 ms1 -> (forall t, within (h t) n2 ms2) ->
  within (try_catch m h) (n1 + n2) (ms1 + ms2)%nat.
Proof.
  intros Hm Hh w. unfold try_catch.
  destruct (Hm w) as (evs1 & Hsteps1 & Hcalls1 & Hsleep1).
  destruct (m w) as [[a|t] w1]; cbn [snd] in *.
  - exists evs1. split; [done|]. split; lia.
  - destruct (Hh t w1) as (evs2 & Hsteps2 & Hcalls2 & Hsleep2).
    exists (evs1 ++ evs2). split; [by eapply steps_trans|].
    rewrite attempts_app, sleeps_app, sum_Z_app. split; lia.
Qed.

(** A computation that first reads the world. *)
Lemma within_reading {A X} (read : World -> X) (m : X -> M A) n ms :
  (forall x, within (m x) n ms) -> within (fun w => m (read w) w) n ms.
Proof. intros Hm w. apply (Hm (read w) w). Qed.

Lemma backoff_total_bound retries s :
  (s <= retries)%nat ->
  0 <= sum_Z (map (fun i => BASE_BACKOFF_MS * 2 ^ Z.of_nat i) (seq 0 s))
    <= 300 * (2 ^ Z.of_nat retries - 1).
Proof.
  intros Hs. rewrite sum_Z_delays. unfold BASE_BACKOFF_MS. simpl (2 ^ Z.of_nat 0).
  assert (1 <= 2 ^ Z.of_nat s <= 2 ^ Z.of_nat retries).
  { split; [|apply Z.pow_le_mono_r; lia].
    replace 1 with (2 ^ 0) by reflexivity. apply Z.pow_le_mono_r; lia. }
  lia.
Qed.

Lemma within_fetchWithRetry P net this req retries :
  within (fetchWithRetry P net this req retries) (retries + 1)
         (300 * (2 ^ retries - 1)).
Proof.
  intros w. unfold fetchWithRetry.
  destruct (retry_loop_steps P net this req retries (S retries) 0 None w eq_refl)
    as (evs & s & Hsteps & Hmax & _ & Hs & Hsleeps & _).
  exists evs. split; [exact Hsteps|]. split; [lia|].
  rewrite Hsleeps.
  pose proof (backoff_total_bound retries s ltac:(lia)) as Hbound.
  assert (1 <= 2 ^ retries)%nat by (apply Nat.neq_0_lt_0, Nat.pow_nonzero; lia).
  rewrite Nat2Z.inj_mul, Nat2Z.inj_sub, Nat2Z.inj_pow by lia. simpl Z.of_nat at 1 2 4.
  exact Hbound.
Qed.

Lemma within_ensureValidTokenOrToast P : within (ensureValidTokenOrToast P) 0 0.
Proof.
  intros w. unfold ensureValidTokenOrToast.
  destruct (getApiToken w) as [token|].
  - destruct (tokenIsExpired P token w) as [[|]|].
    + apply (within_bind _ _ 0 0 0 0 (within_showToast _) (fun _ => within_ret _)).
    + apply within_ret.
    + apply within_ret.
  - apply (within_bind _ _ 0 0 0 0 (within_showToast _) (fun _ => within_ret _)).
Qed.

Lemma within_require_token token : within (require_token token) 0 0.
Proof.
  destruct token as [t|]; simpl; [|apply within_throw].
  destruct (JsString.truthy t); [apply within_ret|apply within_throw].
Qed.

(** The shape shared by the operations: guard, token check, one
    [fetchWithRetry] with the default budget, then effects that call the
    network no more. *)
Lemma within_operation {A} P net this (request : string -> World -> Request)
    (finish : Response -> M A) :
  (forall response, within (finish response) 0 0) ->
  within (bind (ensureValidTokenOrToast P) (fun token =>
          bind (require_token token) (fun token =>
          bind (fun w => fetchWithRetry P net this (request token w) DEFAULT_RETRIES w)
               finish)))
         4 2100.
Proof.
  intros Hfinish.
  apply (within_bind _ _ 0 0 4 2100 (within_ensureValidTokenOrToast P)). intros token.
  apply (within_bind _ _ 0 0 4 2100 (within_require_token token)). intros token'.
  apply (within_bind _ _ 4 2100 0 0); [|exact Hfinish].
  apply (within_reading (request token') (fun req => fetchWithRetry P net this req _)).
  intros req. apply (within_fetchWithRetry P net this req DEFAULT_RETRIES).
Qed.

Lemma within_report P {A} (status : nat) (message : JSValue) :
  within ((if (status =? 401)%nat then showToast auth_required_toast else ret tt) ;;
          @throw_message P A message) 0 0.
Proof.
  apply (within_bind _ _ 0 0 0 0); [|intros; apply within_throw].
  destruct (status =? 401)%nat; [apply within_showToast|apply within_ret].
Qed.

Lemma within_linksQuery P net this args : within (linksQuery P net this args) 4 2100.
Proof.
  unfold linksQuery.
  apply (within_operation P net this (fun token _ => links_request this token args)).
  intros response. destruct (negb (resp_ok response));
    [apply within_throw|apply within_pure].
Qed.

(** X2. Every operation of the client calls the network at most four times
    and sleeps at most 2100 ms (300 + 600 + 1200) per call, whatever the
    network, the credential and the answers are, and changes nothing but the
    log of effects, the clock and the call count. *)
Theorem client_operations_bounded
    (P : Platform) (net : Network) (as_page : JSValue -> PaginatedResponse)
    (this : KalpaClient) :
  (forall apiPath args, within (query P net this apiPath args) 4 2100) /\
  (forall functionPath args, within (mutation P net this functionPath args) 4 2100) /\
  (forall args, within (linksQuery P net this args) 4 2100) /\
  (forall options, within (getLinks P net as_page this options) 4 2100) /\
  (forall options, within (getVideos P net as_page this options) 4 2100) /\
  (forall numItems universeId,
     within (getCodepenLinks P net as_page this numItems universeId) 4 2100) /\
  (forall linkId, within (getLink P net this linkId) 4 2100) /\
  within (getUniverses P net this) 4 2100 /\
  (forall request, within (saveLink P net this request) 4 2100).
Proof.
  assert (Hquery : forall apiPath args, within (query P net this apiPath args) 4 2100).
  { intros apiPath args. unfold query.
    apply (within_operation P net this (fun _ w => query_request this apiPath args w)).
    intros response. destruct (negb (resp_ok response));
      [apply within_report|apply within_pure]. }
  assert (Hlinks : forall (k : JSValue -> PaginatedResponse) args,
             within (bind (linksQuery P net this args) (fun data => ret (k data))) 4 2100).
  { intros k args.
    apply (within_bind _ _ 4 2100 0 0 (within_linksQuery P net this args)).
    intros data. apply within_ret. }
  split; [exact Hquery|]. split.
  { intros functionPath args. unfold mutation.
    apply (within_operation P net this
             (fun _ w => mutation_request this functionPath args w)).
    intros response. destruct (negb (resp_ok response)); [apply within_throw|].
    apply (within_bind _ _ 0 0 0 0); [apply within_pure|intros; apply within_pure]. }
  split; [apply within_linksQuery|].
  split; [intros options; apply Hlinks|].
  split; [intros options; apply Hlinks|].
  split; [intros numItems universeId; apply Hlinks|].
  split; [intros linkId; apply Hquery|]. split.
  { unfold getUniverses.
    apply (within_operation P net this (fun token _ => universes_request this token)).
    intros response. destruct (negb (resp_ok response)); [apply within_report|].
    apply (within_bind _ _ 0 0 0 0); [apply within_pure|intros data].
    apply (within_bind _ _ 0 0 0 0); [apply within_pure|intros; apply within_ret]. }
  intros request. unfold saveLink.
  apply (within_operation P net this (fun _ w => save_request this request w)).
  intros response. destruct (negb (resp_ok response));
    [apply within_report|apply within_pure].
Qed.

Lemma within_useAllLinks client opts n ms :
  (forall o, within (client_getLinks client o) n ms) ->
  (forall o, within (client_getVideos client o) n ms) ->
  (forall k u, within (client_getCodepenLinks client k u) n ms) ->
  within (useAllLinks client opts) (n + (n + n)) (ms + (ms + ms))%nat.
Proof.
  intros Hlinks Hvideos Hcodepen. unfold useAllLinks.
  replace (n + (n + n))%nat with (n + (n + (n + 0)) + 0)%nat by lia.
  replace (ms + (ms + ms))%nat with (ms + (ms + (ms + 0)) + 0)%nat by lia.
  apply within_try_catch.
  - apply within_bind; [apply Hlinks|intros r1].
    apply within_bind; [apply Hvideos|intros r2].
    apply within_bind; [apply Hcodepen|intros r3]. apply within_ret.
  - intros error. apply (within_bind _ _ 0 0 0 0 (within_console_error _ _)).
    intros _. destruct (is_auth_error error); [apply within_ret|apply within_throw].
Qed.

(** X3. One run of [useAllLinks] on the Kalpa client calls the network at
    most twelve times and sleeps at most 6300 ms, whether it returns links,
    returns the empty sequence or throws. *)
Theorem useAllLinks_bounded
    (P : Platform) (net : Network) (as_page : JSValue -> PaginatedResponse)
    (this : KalpaClient) (opts : LinkSearchOptions) :
  within (useAllLinks (kalpa_client P net as_page this) opts) 12 6300.
Proof.
  assert (Hlinks : forall (k : JSValue -> PaginatedResponse) args,
             within (bind (linksQuery P net this args) (fun data => ret (k data))) 4 2100).
  { intros k args.
    apply (within_bind _ _ 4 2100 0 0 (within_linksQuery P net this args)).
    intros data. apply within_ret. }
  apply (within_useAllLinks (kalpa_client P net as_page this) opts 4 2100);
    intros; apply Hlinks.
Qed.

(** ** The guard in front of the network *)

Lemma guard_refuses P w t :
  (getApiToken w = None /\ t = missing_token_toast) \/
  (exists token, getApiToken w = Some token /\
                 tokenIsExpired P token w = Some true /\ t = expired_token_toast) ->
  ensureValidTokenOrToast P w = (Ok None, log (EvToast t) w).
Proof.
  unfold ensureValidTokenOrToast.
  intros [[-> ->]|(token & -> & -> & ->)]; reflexivity.
Qed.

Lemma guard_passes P w token w1 :
  ensureValidTokenOrToast P w = (Ok (Some token), w1) ->
  w1 = w /\ getApiToken w = Some token /\ tokenIsExpired P token w <> Some true.
Proof.
  unfold ensureValidTokenOrToast.
  destruct (getApiToken w) as [t|]; [|discriminate].
  destruct (tokenIsExpired P t w) as [[|]|] eqn:Hexp; [discriminate|..];
    intros [= <- <-]; rewrite Hexp; done.
Qed.

(** X4. When no credential is configured, or the configured one is known to
    be expired, every operation of the client shows the matching notice,
    throws "Authentication required" and does not call the network; and
    [useAllLinks] then answers with the empty sequence. *)
Theorem refused_guard_skips_network
    (P : Platform) (net : Network) (as_page : JSValue -> PaginatedResponse)
    (this : KalpaClient) (w : World) (t : Toast) :
  (getApiToken w = None /\ t = missing_token_toast) \/
  (exists token, getApiToken w = Some token /\
                 tokenIsExpired P token w = Some true /\ t = expired_token_toast) ->
  let w' := log (EvToast t) w in
  fetch_count w' = fetch_count w /\
  (forall apiPath args,
     query P net this apiPath args w = (Throw authentication_required, w')) /\
  (forall functionPath args,
     mutation P net this functionPath args w = (Throw authentication_required, w')) /\
  (forall args, linksQuery P net this args w = (Throw authentication_required, w')) /\
  (forall options,
     getLinks P net as_page this options w = (Throw authentication_required, w')) /\
  (forall options,
     getVideos P net as_page this options w = (Throw authentication_required, w')) /\
  (forall numItems universeId,
     getCodepenLinks P net as_page this numItems universeId w =
       (Throw authentication_required, w')) /\
  getUniverses P net this w = (Throw authentication_required, w') /\
  (forall request, saveLink P net this request w = (Throw authentication_required, w')) /\
  (forall opts,
     useAllLinks (kalpa_client P net as_page this) opts w =
       (Ok [], log (EvConsoleError "useAllLinks error:" authentication_required) w')).
Proof.
  intros Hrefused w'. pose proof (guard_refuses P w t Hrefused) as Hguard. subst w'.
  assert (Hlinks : forall args,
             linksQuery P net this args w =
               (Throw authentication_required, log (EvToast t) w)).
  { intros args. unfold linksQuery, bind. by rewrite Hguard. }
  split; [reflexivity|].
  split; [intros; unfold query, bind; by rewrite Hguard|].
  split; [intros; unfold mutation, bind; by rewrite Hguard|].
  split; [exact Hlinks|].
  split; [intros; unfold getLinks, bind; by rewrite Hlinks|].
  split; [intros; unfold getVideos, bind; by rewrite Hlinks|].
  split; [intros; unfold getCodepenLinks, bind; by rewrite Hlinks|].
  split; [unfold getUniverses, bind; by rewrite Hguard|].
  split; [intros; unfold saveLink, bind; by rewrite Hguard|].
  intros opts. unfold useAllLinks, try_catch, bind, kalpa_client. cbn [client_getLinks].
  unfold getLinks, bind. by rewrite Hlinks.
Qed.

Lemma refused_guard_skips_network_witness :
  saveLink Sample.platform Sample.net_down Sample.client (JObj [])
      (Sample.world (Some Sample.jwt) 1700000000000) =
    (Throw authentication_required,
     log (EvToast expired_token_toast) (Sample.world (Some Sample.jwt) 1700000000000)) /\
  useAllLinks (kalpa_client Sample.platform Sample.net_down Sample.as_page Sample.client)
      Sample.options (Sample.world (Some "   ") 0) =
    (Ok [], log (EvConsoleError "useAllLinks error:" authentication_required)
              (log (EvToast missing_token_toast) (Sample.world (Some "   ") 0))).
Proof.
  split.
  - apply (refused_guard_skips_network Sample.platform Sample.net_down Sample.as_page
             Sample.client (Sample.world (Some Sample.jwt) 1700000000000)
             expired_token_toast).
    right. exists Sample.jwt. repeat split; reflexivity.
  - apply (refused_guard_skips_network Sample.platform Sample.net_down Sample.as_page
             Sample.client (Sample.world (Some "   ") 0) missing_token_toast).
    left. split; reflexivity.
Defined.

(** X5. On a non-2xx answer, of any status and 401 included, [linksQuery]
    throws an error whose message is "Links query failed: " followed by the
    raw body text, and [mutation] throws the message [reported_message]
    computes; neither shows a notice. *)
Theorem links_and_mutation_errors
    (P : Platform) (net : Network) (this : KalpaClient)
    (w w1 w2 : World) (token : string) (response : Response) :
  ensureValidTokenOrToast P w = (Ok (Some token), w1) ->
  resp_ok response = false ->
  (forall args,
     fetchWithRetry P net this (links_request this token args) DEFAULT_RETRIES w1 =
       (Ok response, w2) ->
     linksQuery P net this args w =
       (Throw (ThrownError
                 (new_Error ("Links query failed: " ++ resp_text response)%string)), w2)) /\
  (forall functionPath args,
     fetchWithRetry P net this (mutation_request this functionPath args w1)
       DEFAULT_RETRIES w1 = (Ok response, w2) ->
     mutation P net this functionPath args w =
       (Throw (ThrownError (new_Error (reported_message P "Mutation failed" response))),
        w2)).
Proof.
  intros Hguard Hbad.
  pose proof (ensureValidTokenOrToast_truthy P w token w1 Hguard) as Htoken.
  split.
  - intros args Hfetch. unfold linksQuery, bind, require_token.
    rewrite Hguard, Htoken. unfold ret at 1. by rewrite Hfetch, Hbad.
  - intros functionPath args Hfetch. unfold mutation, bind, require_token.
    rewrite Hguard, Htoken. unfold ret at 1. rewrite Hfetch, Hbad. cbn [negb].
    unfold throw_message. by rewrite extract_error_message_reported.
Qed.

Lemma links_and_mutation_errors_witness :
  exists w',
    linksQuery Sample.platform (Sample.net_answers Sample.unauthorized) Sample.client
      (JObj []) (Sample.world (Some "opaque-token") 0) =
      (Throw (ThrownError (new_Error "Links query failed: Unauthorized")), w') /\
    toasts (events w') = [].
Proof.
  eexists. split.
  - refine (proj1 (links_and_mutation_errors Sample.platform
                     (Sample.net_answers Sample.unauthorized) Sample.client
                     (Sample.world (Some "opaque-token") 0) _ _ "opaque-token"
                     Sample.unauthorized eq_refl eq_refl) (JObj []) _).
    reflexivity.
  - reflexivity.
Defined.

(** X6. A request made after the guard has passed is authorised with the
    token the guard handed out, whatever token the client object captured
    when it was built: [query], [mutation] and [saveLink] send the same two
    headers as [linksQuery] and [getUniverses]. A client cached by
    [getKalpaClient] is reused as it is until [resetKalpaClient]. *)
Theorem requests_carry_guard_token
    (P : Platform) (this : KalpaClient) (w w1 : World) (token : string) :
  ensureValidTokenOrToast P w = (Ok (Some token), w1) ->
  let headers :=
    [("Content-Type", "application/json");
     ("Authorization", ("Bearer " ++ token)%string)] in
  getHeaders this w1 = headers /\
  (forall apiPath args, req_headers (query_request this apiPath args w1) = headers) /\
  (forall functionPath args,
     req_headers (mutation_request this functionPath args w1) = headers) /\
  (forall request, req_headers (save_request this request w1) = headers) /\
  (forall args, req_headers (links_request this token args) = headers) /\
  req_headers (universes_request this token) = headers /\
  (forall cache w0,
     getKalpaClient (snd (getKalpaClient cache w0)) w1 = getKalpaClient cache w0 /\
     fst (getKalpaClient (resetKalpaClient (snd (getKalpaClient cache w0))) w1) =
       new_KalpaClient w1).
Proof.
  intros Hguard headers.
  pose proof (ensureValidTokenOrToast_truthy P w token w1 Hguard) as Htoken.
  destruct (guard_passes P w token w1 Hguard) as (-> & Hget & _).
  assert (Hheaders : getHeaders this w = headers).
  { unfold getHeaders. by rewrite Hget, Htoken. }
  repeat split; try done.
  - by destruct cache.
Qed.

Lemma requests_carry_guard_token_witness :
  getHeaders Demo.stale_client (Sample.world (Some " fresh-token ") 0) =
  [("Content-Type", "application/json"); ("Authorization", "Bearer fresh-token")].
Proof.
  apply (requests_carry_guard_token Sample.platform Demo.stale_client
           (Sample.world (Some " fresh-token ") 0) (Sample.world (Some " fresh-token ") 0)
           "fresh-token").
  reflexivity.
Defined.

(** ** The credential *)

Lemma trim_start_head s c t : JsString.trim_start s = String c t -> JsString.is_space c = false.
Proof.
  induction s as [|x s IH]; simpl; [discriminate|].
  destruct (JsString.is_space x) eqn:Hx; [exact IH|]. by intros [= <- _].
Qed.

Lemma trim_start_fixed c t :
  JsString.is_space c = false -> JsString.trim_start (String c t) = String c t.
Proof. intros Hc. simpl. by rewrite Hc. Qed.

Lemma trim_start_empty s :
  JsString.trim_start s = EmptyString <-> Forall (fun c => JsString.is_space c = true) (chars s).
Proof.
  induction s as [|x s IH]; simpl.
  - split; [constructor|done].
  - destruct (JsString.is_space x) eqn:Hx.
    + rewrite IH. split; [by constructor|by inversion 1].
    + split; [discriminate|]. inversion 1; congruence.
Qed.

Lemma trim_end_cons c s :
  JsString.is_space c = false ->
  JsString.trim_end (String c s) = String c (JsString.trim_end s).
Proof. intros Hc. simpl. destruct (JsString.trim_end s); by rewrite ?Hc. Qed.

Lemma trim_end_idem s : JsString.trim_end (JsString.trim_end s) = JsString.trim_end s.
Proof.
  induction s as [|c s IH]; [done|].
  cbn [JsString.trim_end].
  destruct (JsString.trim_end s) as [|d t] eqn:Ht.
  - destruct (JsString.is_space c) eqn:Hc; [done|]. simpl. by rewrite Hc.
  - change (JsString.trim_end (String c (String d t))) with
      (match JsString.trim_end (String d t) with
       | EmptyString =>
           if JsString.is_space c then EmptyString else String c EmptyString
       | u => String c u
       end).
    by rewrite IH.
Qed.

Lemma trim_end_last s c :
  last (chars (JsString.trim_end s)) = Some c -> JsString.is_space c = false.
Proof.
  induction s as [|x s IH]; [done|].
  cbn [JsString.trim_end].
  destruct (JsString.trim_end s) as [|d t] eqn:Ht.
  - destruct (JsString.is_space x) eqn:Hx; [done|]. simpl. by intros [= <-].
  - intros Hlast. apply IH. exact Hlast.
Qed.

(** X7. The token [getApiToken] returns is the configured value with the
    surrounding whitespace removed: it is never empty, it neither starts nor
    ends with whitespace, and trimming it again changes nothing. The answer
    is [null] exactly when nothing is configured or the value is made of
    whitespace only. *)
Theorem getApiToken_trimmed (w : World) :
  (forall token, getApiToken w = Some token ->
     token <> EmptyString /\
     JsString.trim token = token /\
     (forall c, head (chars token) = Some c -> JsString.is_space c = false) /\
     (forall c, last (chars token) = Some c -> JsString.is_space c = false) /\
     exists raw, prefs_apiToken w = Some raw /\ token = JsString.trim raw) /\
  (getApiToken w = None <->
   prefs_apiToken w = None \/
   exists raw, prefs_apiToken w = Some raw /\
               Forall (fun c => JsString.is_space c = true) (chars raw)).
Proof.
  unfold getApiToken. destruct (prefs_apiToken w) as [raw|]; [|split; [done|tauto]].
  unfold JsString.trim.
  destruct (JsString.trim_start raw) as [|c t] eqn:Hstart.
  - split; [done|]. split; [intros _|done]. right. exists raw.
    split; [done|]. by apply trim_start_empty.
  - pose proof (trim_start_head raw c t Hstart) as Hc.
    rewrite (trim_end_cons c t Hc). cbn [JsString.truthy String.length andb Nat.ltb Nat.leb].
    split.
    + intros token [= Htoken]. subst token. split; [done|]. split.
      { rewrite (trim_start_fixed c _ Hc), <- (trim_end_cons c t Hc), trim_end_idem.
        by rewrite trim_end_cons. }
      split; [simpl; by intros ? [= <-]|]. split.
      { intros d. rewrite <- (trim_end_cons c t Hc). apply trim_end_last. }
      exists raw. split; [done|]. by rewrite Hstart, trim_end_cons.
    + split; [done|]. intros [?|(raw' & [= <-] & Hall)]; [done|].
      apply trim_start_empty in Hall. congruence.
Qed.

Lemma getApiToken_trimmed_witness :
  getApiToken (Sample.world (Some "  tok en  ") 0) = Some "tok en" /\
  JsString.trim "tok en" = "tok en" /\
  getApiToken (Sample.world (Some "   ") 0) = None.
Proof.
  destruct (getApiToken_trimmed (Sample.world (Some "  tok en  ") 0)) as [Hsome _].
  destruct (Hsome "tok en" eq_refl) as (_ & Htrim & _).
  split; [reflexivity|]. split; [exact Htrim|].
  apply (getApiToken_trimmed (Sample.world (Some "   ") 0)).
  right. exists "   ". split; [reflexivity|]. repeat constructor.
Defined.

Lemma append_cons c s t : (String c s ++ t)%string = String c (s ++ t)%string.
Proof. reflexivity. Qed.

Lemma length_append s t : String.length (s ++ t)%string = (String.length s + String.length t)%nat.
Proof.
  induction s as [|c s IH]; [done|]. rewrite append_cons. simpl. by rewrite IH.
Qed.

Lemma append_nil_r s : (s ++ EmptyString)%string = s.
Proof. induction s as [|c s IH]; [done|]. by rewrite append_cons, IH. Qed.

Lemma append_assoc s t u : ((s ++ t) ++ u)%string = (s ++ (t ++ u))%string.
Proof. induction s as [|c s IH]; [done|]. by rewrite !append_cons, IH. Qed.

Lemma length_repeat_char c n : String.length (repeat_char c n) = n.
Proof. induction n as [|n IH]; simpl; [done|by rewrite IH]. Qed.

(** The padding loop appends the least number of "=" that makes the length
    a multiple of four. *)
Lemma pad4_loop_spec fuel :
  forall s,
  ((4 - String.length s mod 4) mod 4 <= fuel)%nat ->
  pad4_loop fuel s = (s ++ repeat_char "=" ((4 - String.length s mod 4) mod 4))%string.
Proof.
  induction fuel as [|fuel IH]; intros s Hfuel.
  - assert ((4 - String.length s mod 4) mod 4 = 0)%nat as -> by lia.
    simpl. by rewrite append_nil_r.
  - cbn [pad4_loop].
    pose proof (Nat.mod_upper_bound (String.length s) 4 ltac:(lia)) as Hlt.
    destruct (String.length s mod 4 =? 0)%nat eqn:E.
    + apply Nat.eqb_eq in E. rewrite E. simpl. by rewrite append_nil_r.
    + apply Nat.eqb_neq in E.
      assert (Hnext : (String.length (s ++ "=") mod 4 =
                       (String.length s mod 4 + 1) mod 4)%nat).
      { rewrite length_append. simpl String.length.
        by rewrite Nat.Div0.add_mod_idemp_l. }
      assert (Hk : ((4 - String.length s mod 4) mod 4 =
                    S ((4 - String.length (s ++ "=") mod 4) mod 4))%nat).
      { rewrite Hnext.
        destruct (String.length s mod 4)%nat as [|[|[|[|r]]]]; try lia; reflexivity. }
      rewrite IH by lia. rewrite Hk. simpl repeat_char.
      rewrite append_assoc. reflexivity.
Qed.

Lemma replace_all_char_chars c d s :
  chars (JsString.replace_all_char c d s) =
  map (fun x => if Ascii.eqb x c then d else x) (chars s).
Proof. induction s as [|x s IH]; simpl; [done|by rewrite IH]. Qed.

Lemma chars_append s t : chars (s ++ t)%string = chars s ++ chars t.
Proof. induction s as [|c s IH]; [done|]. rewrite append_cons. simpl. by rewrite IH. Qed.

Lemma chars_repeat_char c n : chars (repeat_char c n) = replicate n c.
Proof. induction n as [|n IH]; simpl; [done|by rewrite IH]. Qed.

Lemma length_chars s : length (chars s) = String.length s.
Proof. induction s as [|x s IH]; simpl; [done|by rewrite IH]. Qed.

(** X8. [base64UrlDecode] hands the decoder the segment with every "-"
    turned into "+" and every "_" into "/", all other characters kept in
    place, followed by the least number (0 to 3) of "=" that brings the
    length to a multiple of four; it answers [null] only if the decoder
    throws. *)
Theorem base64UrlDecode_alphabet_and_padding (segment : string) :
  let translated :=
    JsString.replace_all_char "_" "/" (JsString.replace_all_char "-" "+" segment) in
  let k := ((4 - String.length segment mod 4) mod 4)%nat in
  let base64 := (translated ++ repeat_char "=" k)%string in
  (forall P, base64UrlDecode P segment =
             match Buffer_base64_utf8 P base64 with
             | Ok s => Some s
             | Throw _ => None
             end) /\
  (k < 4)%nat /\
  (String.length base64 mod 4 = 0)%nat /\
  chars translated =
    map (fun c => if Ascii.eqb c "-" then "+"%char
                  else if Ascii.eqb c "_" then "/"%char else c) (chars segment) /\
  ("-"%char ∉ chars base64) /\ ("_"%char ∉ chars base64).
Proof.
  intros translated k base64.
  assert (Hlen : String.length translated = String.length segment).
  { subst translated. by rewrite <- !length_chars, !replace_all_char_chars, !length_map. }
  assert (Hchars : chars translated =
                   map (fun c => if Ascii.eqb c "-" then "+"%char
                                 else if Ascii.eqb c "_" then "/"%char else c)
                       (chars segment)).
  { subst translated. rewrite !replace_all_char_chars, map_map.
    apply map_ext. intros c. destruct (Ascii.eqb c "-") eqn:E; [reflexivity|].
    reflexivity. }
  assert (Hk : (k < 4)%nat) by (subst k; apply Nat.mod_upper_bound; lia).
  assert (Hpad : pad4 translated = base64).
  { unfold pad4. rewrite pad4_loop_spec; rewrite Hlen; [done|]. fold k. lia. }
  split; [intros P; unfold base64UrlDecode; fold translated; by rewrite Hpad|].
  split; [exact Hk|]. split; [rewrite <- Hpad; apply pad4_aligned|].
  split; [exact Hchars|].
  assert (Hbase : chars base64 = chars translated ++ replicate k "="%char).
  { subst base64. by rewrite chars_append, chars_repeat_char. }
  rewrite Hbase, Hchars.
  split; intros Hin; apply elem_of_app in Hin as [Hin|Hin].
  - apply list_elem_of_fmap in Hin as (c & Hc & _).
    destruct (Ascii.eqb c "-") eqn:E1; [discriminate|].
    destruct (Ascii.eqb c "_") eqn:E2; [discriminate|].
    subst c. discriminate.
  - apply elem_of_replicate in Hin as [Hin _]. discriminate.
  - apply list_elem_of_fmap in Hin as (c & Hc & _).
    destruct (Ascii.eqb c "-") eqn:E1; [discriminate|].
    destruct (Ascii.eqb c "_") eqn:E2; [discriminate|].
    subst c. discriminate.
  - apply elem_of_replicate in Hin as [Hin _]. discriminate.
Qed.

Lemma split_char_app sep h rest :
  count_char sep h = 0%nat ->
  JsString.split_char sep (h ++ String sep rest) = h :: JsString.split_char sep rest.
Proof.
  induction h as [|c h IH]; simpl.
  - intros _. by rewrite Ascii.eqb_refl.
  - destruct (Ascii.eqb c sep); [discriminate|]. simpl. intros Hh. by rewrite IH.
Qed.

Lemma parseJwtClaims_payload P header payload rest :
  count_char "." header = 0%nat -> count_char "." payload = 0%nat ->
  parseJwtClaims P (header ++ String "." (payload ++ String "." rest)) =
  parseJwtClaims P (String "." (payload ++ String "." EmptyString)).
Proof.
  intros Hh Hp. unfold parseJwtClaims.
  rewrite (split_char_app "." header _ Hh), (split_char_app "." payload _ Hp).
  change (String "." (payload ++ String "." EmptyString))
    with (EmptyString ++ String "." (payload ++ String "." EmptyString))%string.
  rewrite (split_char_app "." EmptyString _ eq_refl), (split_char_app "." payload _ Hp).
  reflexivity.
Qed.

(** X9. The claims and the expiry verdict of a three-part credential depend
    on its middle segment alone: two credentials with the same payload
    segment, whatever their header and whatever follows the payload
    (signature, further segments), have the same claims and the same
    [tokenIsExpired]. *)
Theorem parseJwtClaims_reads_payload_only
    (P : Platform) (header header' payload signature signature' : string) (w : World) :
  count_char "." header = 0%nat ->
  count_char "." header' = 0%nat ->
  count_char "." payload = 0%nat ->
  let token := (header ++ String "." (payload ++ String "." signature))%string in
  let token' := (header' ++ String "." (payload ++ String "." signature'))%string in
  parseJwtClaims P token = parseJwtClaims P token' /\
  tokenIsExpired P token w = tokenIsExpired P token' w.
Proof.
  intros Hh Hh' Hp token token'.
  assert (Hclaims : parseJwtClaims P token = parseJwtClaims P token').
  { subst token token'. by rewrite !parseJwtClaims_payload. }
  split; [exact Hclaims|]. unfold tokenIsExpired. by rewrite Hclaims.
Qed.

Lemma parseJwtClaims_reads_payload_only_witness :
  tokenIsExpired Sample.platform
    ("forged." ++ Sample.exp_segment ++ ".no-signature.extra")%string
    (Sample.world None 1700000000000) =
  tokenIsExpired Sample.platform Sample.jwt (Sample.world None 1700000000000).
Proof.
  apply (parseJwtClaims_reads_payload_only Sample.platform "forged" "eyJhbGciOiJub25lIn0"
           Sample.exp_segment "no-signature.extra" "c2ln" (Sample.world None 1700000000000));
    reflexivity.
Defined.

(** X10. For a given credential the verdict of [tokenIsExpired] only moves
    one way as the clock advances: once [true] it stays [true], a later
    [false] means it was [false] before, and an unknown expiry stays
    unknown. *)
Theorem tokenIsExpired_monotone (P : Platform) (token : string) (w w' : World) :
  clock_ms w <= clock_ms w' ->
  (tokenIsExpired P token w = Some true -> tokenIsExpired P token w' = Some true) /\
  (tokenIsExpired P token w' = Some false -> tokenIsExpired P token w = Some false) /\
  (tokenIsExpired P token w = None <-> tokenIsExpired P token w' = None).
Proof.
  intros Hclock. unfold tokenIsExpired, now_seconds.
  destruct (negb (truthy (parseJwtClaims P token))); [done|].
  destruct (prop_of (parseJwtClaims P token) "exp") as [| | |exp| | |]; try done.
  assert (Hmono : Qle_bool exp (inject_Z (clock_ms w / 1000)) = true ->
                  Qle_bool exp (inject_Z (clock_ms w' / 1000)) = true).
  { rewrite !Qle_bool_iff. intros Hle. eapply Qle_trans; [exact Hle|].
    rewrite <- Zle_Qle. apply Z.div_le_mono; lia. }
  split; [intros [= H]; by rewrite (Hmono H)|]. split; [|done].
  intros [= H]. destruct (Qle_bool exp (inject_Z (clock_ms w / 1000))); [|done].
  rewrite Hmono in H; done.
Qed.

Lemma tokenIsExpired_monotone_witness :
  tokenIsExpired Sample.platform Sample.jwt (Sample.world None 1700000005000) = Some true.
Proof.
  apply (tokenIsExpired_monotone Sample.platform Sample.jwt
           (Sample.world None 1700000000000) (Sample.world None 1700000005000)).
  - vm_compute. discriminate.
  - reflexivity.
Defined.

(** ** Display helpers *)

Lemma length_substring0 n s :
  String.length (String.substring 0 n s) = Nat.min n (String.length s).
Proof.
  revert n. induction s as [|c s IH]; intros [|n]; simpl; try done.
  by rewrite IH.
Qed.

Lemma substring0_all n s : (String.length s <= n)%nat -> String.substring 0 n s = s.
Proof.
  revert n. induction s as [|c s IH]; intros [|n]; simpl; try done; try lia.
  intros Hn. rewrite IH; [done|lia].
Qed.

(** X11. With [maxLength >= 3], [truncate] never returns more than
    [maxLength] characters: a text that fits is returned as it is, a longer
    one is cut to its first [maxLength - 3] characters followed by "...",
    which makes exactly [maxLength] characters; truncating twice is
    truncating once. *)
Theorem truncate_bounded (text : string) (maxLength : Z) :
  3 <= maxLength ->
  let len := Z.of_nat (String.length text) in
  Z.of_nat (String.length (truncate text maxLength)) <= maxLength /\
  (len <= maxLength -> truncate text maxLength = text) /\
  (maxLength < len ->
   truncate text maxLength =
     (String.substring 0 (Z.to_nat (maxLength - 3)) text ++ "...")%string /\
   Z.of_nat (String.length (truncate text maxLength)) = maxLength) /\
  truncate (truncate text maxLength) maxLength = truncate text maxLength.
Proof.
  intros Hmax len.
  assert (Hfits : forall t, Z.of_nat (String.length t) <= maxLength ->
                            truncate t maxLength = t).
  { intros t Ht. unfold truncate. apply Z.leb_le in Ht. by rewrite Ht. }
  assert (Hcut : maxLength < len ->
                 truncate text maxLength =
                   (String.substring 0 (Z.to_nat (maxLength - 3)) text ++ "...")%string /\
                 Z.of_nat (String.length (truncate text maxLength)) = maxLength).
  { intros Hlong. unfold truncate, js_slice0. fold len.
    destruct (len <=? maxLength) eqn:E; [apply Z.leb_le in E; lia|].
    destruct (maxLength - 3 <? 0) eqn:E3; [apply Z.ltb_lt in E3; lia|].
    rewrite Z.min_l by lia. split; [done|].
    rewrite length_append, length_substring0. simpl String.length. subst len. lia. }
  split; [|split; [apply Hfits|split; [exact Hcut|]]].
  - destruct (Z_le_gt_dec len maxLength) as [Hle|Hgt].
    + by rewrite Hfits.
    + destruct Hcut as [_ ->]; lia.
  - destruct (Z_le_gt_dec len maxLength) as [Hle|Hgt].
    + rewrite (Hfits text Hle). by apply Hfits.
    + apply Hfits. destruct Hcut as [_ ->]; lia.
Qed.

Lemma truncate_bounded_witness :
  truncate "The quick brown fox" 10 = "The qui..." /\
  truncate (truncate "The quick brown fox" 10) 10 = "The qui...".
Proof.
  destruct (truncate_bounded "The quick brown fox" 10 ltac:(lia)) as (_ & _ & Hcut & Hidem).
  split; [apply Hcut; simpl; lia|].
  rewrite Hidem. apply Hcut. simpl. lia.
Defined.

(** X12. With [maxLength < 3] the bound is lost: for a text longer than
    [maxLength], [slice] receives a negative end and counts it from the end
    of the text, so the result has [max (length + maxLength - 3) 0 + 3]
    characters, more than [maxLength]; for [maxLength] 1 or 2 and a text of
    three characters or more it is longer than the text itself. *)
Theorem truncate_small_maxLength (text : string) (maxLength : Z) :
  maxLength < 3 ->
  let len := Z.of_nat (String.length text) in
  maxLength < len ->
  Z.of_nat (String.length (truncate text maxLength)) = Z.max (len + maxLength - 3) 0 + 3 /\
  maxLength < Z.of_nat (String.length (truncate text maxLength)) /\
  (0 < maxLength -> 3 <= len -> len < Z.of_nat (String.length (truncate text maxLength))).
Proof.
  intros Hsmall len Hlong.
  assert (Hlen : Z.of_nat (String.length (truncate text maxLength)) =
                 Z.max (len + maxLength - 3) 0 + 3).
  { unfold truncate, js_slice0. fold len.
    destruct (len <=? maxLength) eqn:E; [apply Z.leb_le in E; lia|].
    destruct (maxLength - 3 <? 0) eqn:E3; [|apply Z.ltb_ge in E3; lia].
    rewrite length_append, length_substring0. simpl String.length. subst len. lia. }
  rewrite Hlen. split; [done|]. split; lia.
Qed.

Lemma truncate_small_maxLength_witness :
  truncate "abcdef" 2 = "abcde..." /\
  Z.of_nat (String.length (truncate "abcdef" 2)) = 8.
Proof.
  split; [reflexivity|].
  destruct (truncate_small_maxLength "abcdef" 2 ltac:(lia) ltac:(simpl; lia)) as [Hlen _].
  exact Hlen.
Defined.

Lemma relative_units d :
  d / 1000 / 60 = d / 60000 /\
  d / 1000 / 60 / 60 = d / 3600000 /\
  d / 1000 / 60 / 60 / 24 = d / 86400000 /\
  d / 1000 / 60 / 60 / 24 / 7 = d / 604800000 /\
  d / 1000 / 60 / 60 / 24 / 30 = d / 2592000000.
Proof. repeat split; Z.to_euclidean_division_equations; lia. Qed.

(** X13. [formatRelativeTime] names the largest unit that is at least one,
    with a count that is never zero: "Just now" below one minute (and for a
    timestamp in the future), 1 to 59 minutes, 1 to 23 hours, 1 to 6 days,
    1 to 4 weeks, and months of thirty days from the thirtieth day on. *)
Theorem formatRelativeTime_units (timestamp : Z) (w : World) :
  let d := clock_ms w - timestamp in
  (d < 60000 -> formatRelativeTime timestamp w = "Just now") /\
  (60000 <= d < 3600000 ->
   formatRelativeTime timestamp w = (js_number (d / 60000) ++ "m ago")%string /\
   1 <= d / 60000 <= 59) /\
  (3600000 <= d < 86400000 ->
   formatRelativeTime timestamp w = (js_number (d / 3600000) ++ "h ago")%string /\
   1 <= d / 3600000 <= 23) /\
  (86400000 <= d < 604800000 ->
   formatRelativeTime timestamp w = (js_number (d / 86400000) ++ "d ago")%string /\
   1 <= d / 86400000 <= 6) /\
  (604800000 <= d < 2592000000 ->
   formatRelativeTime timestamp w = (js_number (d / 604800000) ++ "w ago")%string /\
   1 <= d / 604800000 <= 4) /\
  (2592000000 <= d ->
   formatRelativeTime timestamp w = (js_number (d / 2592000000) ++ "mo ago")%string /\
   1 <= d / 2592000000).
Proof.
  intros d. unfold formatRelativeTime. fold d.
  destruct (relative_units d) as (-> & -> & -> & -> & ->).
  repeat split; intros; repeat split;
    try (Z.to_euclidean_division_equations; lia);
    repeat match goal with
           | |- context [0 <? ?x] =>
               destruct (Z.ltb_spec 0 x);
               try (exfalso; Z.to_euclidean_division_equations; lia)
           end; reflexivity.
Qed.

Lemma formatRelativeTime_units_witness :
  formatRelativeTime 0 (Sample.world None 7200000) = "2h ago" /\
  formatRelativeTime 0 (Sample.world None 2591999999) = "4w ago" /\
  formatRelativeTime 5000 (Sample.world None 0) = "Just now".
Proof.
  split; [|split].
  - apply (formatRelativeTime_units 0 (Sample.world None 7200000)). simpl. lia.
  - apply (formatRelativeTime_units 0 (Sample.world None 2591999999)). simpl. lia.
  - apply (formatRelativeTime_units 5000 (Sample.world None 0)). simpl. lia.
Defined.

(** ** Lists shown by the commands *)

Lemma push_each_filter {A} (choose : A -> bool) acc items :
  push_each choose acc items = acc ++ List.filter choose items.
Proof.
  revert acc. induction items as [|x items IH]; intros acc; simpl.
  - by rewrite app_nil_r.
  - rewrite IH. destruct (choose x); [by rewrite <- app_assoc|done].
Qed.

Lemma elem_of_List_filter {A} (p : A -> bool) l x :
  x ∈ List.filter p l <-> x ∈ l /\ p x = true.
Proof. rewrite !list_elem_of_In. apply filter_In. Qed.

Lemma List_filter_sublist {A} (p : A -> bool) l : sublist (List.filter p l) l.
Proof.
  induction l as [|x l IH]; simpl; [constructor|].
  destruct (p x); by constructor.
Qed.

(** Three classes that exclude one another and cover everything split a list
    into three parts that make it up again. *)
Lemma filter3_perm {A} (p1 p2 p3 : A -> bool) l :
  (forall x, (p1 x = true /\ p2 x = false /\ p3 x = false) \/
             (p1 x = false /\ p2 x = true /\ p3 x = false) \/
             (p1 x = false /\ p2 x = false /\ p3 x = true)) ->
  List.filter p1 l ++ List.filter p2 l ++ List.filter p3 l ≡ₚ l.
Proof.
  intros Hcases. induction l as [|x l IH]; [done|]. simpl.
  destruct (Hcases x) as [(-> & -> & ->)|[(-> & -> & ->)|(-> & -> & ->)]]; simpl.
  - by rewrite IH.
  - rewrite <- Permutation_middle. by rewrite IH.
  - rewrite app_assoc, <- Permutation_middle, <- app_assoc. by rewrite IH.
Qed.

(** A stable sort leaves a sorted list as it is. *)
Lemma js_sort_sorted_id {A} (compareFn : A -> A -> Z) l :
  StronglySorted (may_precede compareFn) l -> js_sort compareFn l = l.
Proof.
  induction 1 as [|x l Hsorted IH Hx]; [done|]. simpl. rewrite IH.
  destruct l as [|y l]; [done|]. simpl.
  inversion Hx as [|? ? Hxy _]; subst. unfold may_precede in Hxy.
  destruct (0 <? compareFn x y) eqn:E; [apply Z.ltb_lt in E; lia|done].
Qed.

Lemma sortByRelevance_sorted links query :
  StronglySorted (may_precede (sortByRelevance_compareFn query))
                 (sortByRelevance links query).
Proof.
  rewrite <- sortByRelevance_compareFn_sorts. unfold sortByRelevance_compareFn.
  destruct (negb (JsString.truthy query)).
  - apply js_sort_sorted; [apply byCreationTimeDesc_flip|apply byCreationTimeDesc_trans].
  - apply js_sort_sorted; [apply relevanceCompare_flip|apply relevanceCompare_trans].
Qed.

(** X14. Sorting is idempotent: [sortByRelevance] applied to its own result
    changes nothing, for any query; and with the empty query it leaves a
    list that [useAllLinks] has sorted as it is. *)
Theorem sortByRelevance_idempotent (links : list KalpaLink) (query : string) :
  sortByRelevance (sortByRelevance links query) query = sortByRelevance links query /\
  sortByRelevance (js_sort byCreationTimeDesc links) EmptyString =
    js_sort byCreationTimeDesc links.
Proof.
  split.
  - rewrite <- (sortByRelevance_compareFn_sorts (sortByRelevance links query)).
    apply js_sort_sorted_id, sortByRelevance_sorted.
  - apply (js_sort_sorted_id byCreationTimeDesc).
    apply js_sort_sorted; [apply byCreationTimeDesc_flip|apply byCreationTimeDesc_trans].
Qed.

(** X15. The list [SearchLinksCommand] displays holds exactly the fetched
    links that [matchesSearch] accepts, each as often as it was fetched;
    nothing is displayed while the data is not there; and with an empty
    search text a list already sorted by recency, as [useAllLinks] returns
    it, is displayed unchanged. *)
Theorem filteredLinks_spec (allLinks : list KalpaLink) (searchText : string) :
  filteredLinks None searchText = [] /\
  filteredLinks (Some allLinks) searchText ≡ₚ
    List.filter (fun link => matchesSearch link searchText) allLinks /\
  (forall link,
     link ∈ filteredLinks (Some allLinks) searchText <->
     link ∈ allLinks /\ matchesSearch link searchText = true) /\
  filteredLinks (Some (js_sort byCreationTimeDesc allLinks)) EmptyString =
    js_sort byCreationTimeDesc allLinks.
Proof.
  assert (Hperm : filteredLinks (Some allLinks) searchText ≡ₚ
                  List.filter (fun link => matchesSearch link searchText) allLinks).
  { unfold filteredLinks. rewrite sortByRelevance_perm.
    destruct searchText as [|c s]; [|done]. simpl.
    induction allLinks as [|x l IH]; simpl; [done|]. by rewrite <- IH. }
  split; [done|]. split; [exact Hperm|]. split.
  - intros link. rewrite Hperm.
    apply (elem_of_List_filter (fun l => matchesSearch l searchText)).
  - unfold filteredLinks, sortByRelevance. cbn [JsString.truthy negb].
    apply (js_sort_sorted_id byCreationTimeDesc).
    apply js_sort_sorted; [apply byCreationTimeDesc_flip|apply byCreationTimeDesc_trans].
Qed.

(** X16. [groupedLinks] splits the displayed links into three sections that
    together hold each link once and keep the display order; a link is in
    the video section exactly when [getLinkIcon] gives it the play icon, in
    the CodePen section exactly when it gives the code icon, and in the
    article section otherwise. *)
Theorem groupedLinks_partition (filtered : list KalpaLink) :
  let groups := groupedLinks filtered in
  group_articles groups ++ group_videos groups ++ group_codepens groups ≡ₚ filtered /\
  sublist (group_articles groups) filtered /\
  sublist (group_videos groups) filtered /\
  sublist (group_codepens groups) filtered /\
  (forall link, link ∈ group_videos groups <->
                link ∈ filtered /\ getLinkIcon link = IconPlay) /\
  (forall link, link ∈ group_codepens groups <->
                link ∈ filtered /\ getLinkIcon link = IconCode) /\
  (forall link, link ∈ group_articles groups <->
                link ∈ filtered /\ getLinkIcon link <> IconPlay /\
                getLinkIcon link <> IconCode).
Proof.
  unfold groupedLinks. cbn [group_articles group_videos group_codepens].
  rewrite !push_each_filter. cbn [app].
  split.
  { apply filter3_perm. intros x.
    destruct (looks_like_video x), (looks_like_codepen x); simpl; tauto. }
  split; [apply List_filter_sublist|]. split; [apply List_filter_sublist|].
  split; [apply List_filter_sublist|].
  split; [|split]; intros link; rewrite elem_of_List_filter; unfold getLinkIcon;
    destruct (looks_like_video link), (looks_like_codepen link),
             (is_archived link), (is_read link); simpl; intuition congruence.
Qed.

Lemma List_filter_none {A} (p : A -> bool) l :
  Forall (fun x => p x = false) l -> List.filter p l = [].
Proof.
  induction 1 as [|x l Hx _ IH]; simpl; [done|]. by rewrite Hx, IH.
Qed.

(** X17. The four sections of [RecentLinksCommand] (today, yesterday, this
    week, older) hold each link once, by its age at rendering time: under
    one day (a link dated in the future included), one to two days, two to
    seven days, seven days or more. For a list sorted by recency, as
    [useAllLinks] returns it, the sections put end to end are the list
    itself. *)
Theorem recent_buckets_partition (links : list KalpaLink) (w : World) :
  let b := recent_buckets (Some links) w in
  let age link := clock_ms w - creationTime link in
  let shown := bucket_today b ++ bucket_yesterday b ++ bucket_thisWeek b ++ bucket_older b in
  shown ≡ₚ links /\
  (forall link, link ∈ bucket_today b <-> link ∈ links /\ age link < 86400000) /\
  (forall link, link ∈ bucket_yesterday b <->
                link ∈ links /\ 86400000 <= age link < 172800000) /\
  (forall link, link ∈ bucket_thisWeek b <->
                link ∈ links /\ 172800000 <= age link < 604800000) /\
  (forall link, link ∈ bucket_older b <-> link ∈ links /\ 604800000 <= age link) /\
  (StronglySorted (fun x y => creationTime y <= creationTime x) links -> shown = links).
Proof.
  intros b age shown. subst b shown. unfold recent_buckets.
  cbn [bucket_today bucket_yesterday bucket_thisWeek bucket_older].
  rewrite !push_each_filter. cbn [app].
  change oneWeek with 604800000. change (2 * oneDay) with 172800000.
  change oneDay with 86400000.
  change (fun link : KalpaLink => clock_ms w - creationTime link) with age.
  set (p1 := fun link : KalpaLink => clock_ms w - creationTime link <? 86400000).
  set (p2 := fun link : KalpaLink =>
               negb (clock_ms w - creationTime link <? 86400000)
               && (clock_ms w - creationTime link <? 172800000)).
  set (p3 := fun link : KalpaLink =>
               negb (clock_ms w - creationTime link <? 86400000)
               && negb (clock_ms w - creationTime link <? 172800000)
               && (clock_ms w - creationTime link <? 604800000)).
  set (p4 := fun link : KalpaLink =>
               negb (clock_ms w - creationTime link <? 86400000)
               && negb (clock_ms w - creationTime link <? 172800000)
               && negb (clock_ms w - creationTime link <? 604800000)).
  assert (Hcases : forall x,
             (p1 x = true /\ p2 x = false /\ p3 x = false /\ p4 x = false /\
              age x < 86400000) \/
             (p1 x = false /\ p2 x = true /\ p3 x = false /\ p4 x = false /\
              86400000 <= age x < 172800000) \/
             (p1 x = false /\ p2 x = false /\ p3 x = true /\ p4 x = false /\
              172800000 <= age x < 604800000) \/
             (p1 x = false /\ p2 x = false /\ p3 x = false /\ p4 x = true /\
              604800000 <= age x)).
  { intros x. unfold p1, p2, p3, p4, age.
    destruct (Z.ltb_spec (clock_ms w - creationTime x) 86400000),
             (Z.ltb_spec (clock_ms w - creationTime x) 172800000),
             (Z.ltb_spec (clock_ms w - creationTime x) 604800000); simpl; try lia;
      intuition (try reflexivity; try lia). }
  clearbody p1 p2 p3 p4.
  split; [|split; [|split; [|split; [|split]]]].
  - induction links as [|x l IH]; [done|]. cbn [List.filter].
    destruct (Hcases x) as [(-> & -> & -> & -> & _)|[(-> & -> & -> & -> & _)|
                            [(-> & -> & -> & -> & _)|(-> & -> & -> & -> & _)]]]; simpl.
    + by rewrite IH.
    + rewrite <- Permutation_middle. by rewrite IH.
    + rewrite app_assoc, <- Permutation_middle, <- app_assoc. by rewrite IH.
    + rewrite !app_assoc, <- Permutation_middle, <- !app_assoc. by rewrite IH.
  - intros link. rewrite (elem_of_List_filter p1). destruct (Hcases link); intuition (try congruence; try lia).
  - intros link. rewrite (elem_of_List_filter p2). destruct (Hcases link); intuition (try congruence; try lia).
  - intros link. rewrite (elem_of_List_filter p3). destruct (Hcases link); intuition (try congruence; try lia).
  - intros link. rewrite (elem_of_List_filter p4). destruct (Hcases link); intuition (try congruence; try lia).
  - induction 1 as [|x l Hsorted IH Hx]; [done|]. cbn [List.filter].
    assert (Hages : Forall (fun y => age x <= age y) l).
    { eapply Forall_impl; [exact Hx|]. intros y Hy. unfold age. simpl in Hy. lia. }
    destruct (Hcases x) as [(-> & -> & -> & -> & Hage)|[(-> & -> & -> & -> & Hage)|
                            [(-> & -> & -> & -> & Hage)|(-> & -> & -> & -> & Hage)]]].
    + simpl. by rewrite IH.
    + assert (H1 : List.filter p1 l = []).
      { apply List_filter_none. eapply Forall_impl; [exact Hages|]. intros y Hy.
        destruct (Hcases y); intuition (try congruence; try lia). }
      rewrite H1 in IH |- *. simpl in *. by rewrite IH.
    + assert (H1 : List.filter p1 l = []).
      { apply List_filter_none. eapply Forall_impl; [exact Hages|]. intros y Hy.
        destruct (Hcases y); intuition (try congruence; try lia). }
      assert (H2 : List.filter p2 l = []).
      { apply List_filter_none. eapply Forall_impl; [exact Hages|]. intros y Hy.
        destruct (Hcases y); intuition (try congruence; try lia). }
      rewrite H1, H2 in IH |- *. simpl in *. by rewrite IH.
    + assert (H1 : List.filter p1 l = []).
      { apply List_filter_none. eapply Forall_impl; [exact Hages|]. intros y Hy.
        destruct (Hcases y); intuition (try congruence; try lia). }
      assert (H2 : List.filter p2 l = []).
      { apply List_filter_none. eapply Forall_impl; [exact Hages|]. intros y Hy.
        destruct (Hcases y); intuition (try congruence; try lia). }
      assert (H3 : List.filter p3 l = []).
      { apply List_filter_none. eapply Forall_impl; [exact Hages|]. intros y Hy.
        destruct (Hcases y); intuition (try congruence; try lia). }
      rewrite H1, H2, H3 in IH |- *. simpl in *. by rewrite IH.
Qed.

Lemma recent_buckets_partition_witness :
  let b := recent_buckets (Some Demo.recent_links) (Sample.world None 1000000000000) in
  map title (bucket_today b) = ["hour"] /\
  map title (bucket_yesterday b) = ["day"] /\
  map title (bucket_thisWeek b) = ["days"] /\
  map title (bucket_older b) = ["old"] /\
  bucket_today b ++ bucket_yesterday b ++ bucket_thisWeek b ++ bucket_older b =
    Demo.recent_links.
Proof.
  split; [reflexivity|split; [reflexivity|split; [reflexivity|split; [reflexivity|]]]].
  apply (recent_buckets_partition Demo.recent_links (Sample.world None 1000000000000)).
  repeat constructor; simpl; lia.
Defined.

(** X18. [hexToRaycastColor] does not depend on the case of its argument. A
    value that starts with "#" always gets a colour, the primary text colour
    when it is not one of the eight listed; the only values that get
    something else than a colour are those spelling "constructor" or
    "__proto__" in any case, which read a member inherited by the lookup
    table. *)
Theorem hexToRaycastColor_case_insensitive (hex : string) :
  hexToRaycastColor (JsString.toLowerCase hex) = hexToRaycastColor hex /\
  (JsString.startsWith hex "#" = true -> exists c, hexToRaycastColor hex = Tint c) /\
  ((exists c, hexToRaycastColor hex = Tint c) \/
   (hexToRaycastColor hex = Inherited (JsString.toLowerCase hex) /\
    (JsString.toLowerCase hex = "constructor" \/ JsString.toLowerCase hex = "__proto__"))) /\
  (forall c, hexToRaycastColor hex = Tint c ->
     c = PrimaryText \/ In (JsString.toLowerCase hex, c) colorMap).
Proof.
  split; [unfold hexToRaycastColor; by rewrite toLowerCase_idem|].
  assert (Hget : forall key c, colorMap_get key colorMap = Some c -> In (key, c) colorMap).
  { intros key c. generalize colorMap. intros m. induction m as [|[k v] m IH]; simpl; [done|].
    destruct (String.eqb key k) eqn:E; [|by right; apply IH].
    apply String.eqb_eq in E as ->. intros [= ->]. by left. }
  split; [|split].
  - intros Hstart. unfold hexToRaycastColor.
    destruct (colorMap_get _ colorMap) as [c|]; [by exists c|].
    destruct hex as [|x rest]; [discriminate|].
    unfold JsString.startsWith in Hstart.
    change (String.prefix "#" (String x rest))
      with (if ascii_dec "#"%char x then String.prefix "" rest else false) in Hstart.
    destruct (ascii_dec "#"%char x) as [<-|]; [|discriminate].
    simpl. by exists PrimaryText.
  - unfold hexToRaycastColor.
    destruct (colorMap_get _ colorMap) as [c|]; [left; by exists c|].
    destruct (String.eqb (JsString.toLowerCase hex) "constructor") eqn:E1.
    { right. apply String.eqb_eq in E1. split; [done|by left]. }
    destruct (String.eqb (JsString.toLowerCase hex) "__proto__") eqn:E2.
    { right. apply String.eqb_eq in E2. split; [done|by right]. }
    left. by exists PrimaryText.
  - intros c. unfold hexToRaycastColor.
    destruct (colorMap_get _ colorMap) as [c'|] eqn:E.
    + intros [= <-]. right. by apply Hget.
    + destruct (_ || _); [discriminate|]. intros [= <-]. by left.
Qed.

Lemma hexToRaycastColor_case_insensitive_witness :
  hexToRaycastColor "#A78BFA" = Tint Purple /\
  hexToRaycastColor "#000000" = Tint PrimaryText /\
  hexToRaycastColor "Constructor" = Inherited "constructor".
Proof.
  split; [|split; reflexivity].
  destruct (hexToRaycastColor_case_insensitive "#A78BFA") as (Hcase & Hhash & _).
  destruct (Hhash eq_refl) as [c Hc]. rewrite <- Hcase. reflexivity.
Defined.



(** ** The login page and the universe view *)

Lemma getApiToken_truthy w token :
  getApiToken w = Some token -> JsString.truthy token = true.
Proof.
  unfold getApiToken. destruct (prefs_apiToken w) as [raw|]; [|discriminate].
  destruct (JsString.truthy (JsString.trim raw)) eqn:E; [|discriminate].
  destruct (0 <? _)%nat; [|discriminate]. by intros [= <-].
Qed.

(** X20. [LoginCommand] shows the "connected" page exactly when a token is
    configured and known not to be expired, the "expired" page exactly when
    it is known to be expired, and the "connect" page otherwise, that is
    without a token or with a token of unknown expiry. The "expired" page
    goes with a refusing guard and the "connected" page with a passing one;
    but a token of unknown expiry, shown the "connect" page, is one the guard
    hands out. *)
Theorem LoginCommand_views (P : Platform) (w : World) :
  (LoginCommand P w = ViewConnected <->
   exists t, getApiToken w = Some t /\ tokenIsExpired P t w = Some false) /\
  (LoginCommand P w = ViewExpired <->
   exists t, getApiToken w = Some t /\ tokenIsExpired P t w = Some true) /\
  (LoginCommand P w = ViewConnect <->
   getApiToken w = None \/
   exists t, getApiToken w = Some t /\ tokenIsExpired P t w = None) /\
  (LoginCommand P w = ViewConnected ->
   exists t, ensureValidTokenOrToast P w = (Ok (Some t), w)) /\
  (LoginCommand P w = ViewExpired ->
   ensureValidTokenOrToast P w = (Ok None, log (EvToast expired_token_toast) w)) /\
  (forall t, getApiToken w = Some t -> LoginCommand P w = ViewConnect ->
     ensureValidTokenOrToast P w = (Ok (Some t), w)).
Proof.
  unfold LoginCommand, ensureValidTokenOrToast.
  destruct (getApiToken w) as [t|] eqn:Ht.
  - rewrite (getApiToken_truthy w t Ht). cbn [andb].
    destruct (tokenIsExpired P t w) as [[|]|] eqn:Hexp; cbn iota;
      repeat split; try done; try (intros; by exists t);
      try (intros (t' & [= <-] & Hx); congruence);
      try (intros [?|(t' & [= <-] & Hx)]; congruence);
      try (intros _; right; by exists t);
      try (intros t' [= <-]; done).
  - repeat split; try done; try (intros (t' & [=] & _)); try (intros _; by left).
Qed.

Lemma LoginCommand_views_witness :
  LoginCommand Sample.platform (Sample.world (Some "opaque-token") 0) = ViewConnect /\
  ensureValidTokenOrToast Sample.platform (Sample.world (Some "opaque-token") 0) =
    (Ok (Some "opaque-token"), Sample.world (Some "opaque-token") 0).
Proof.
  split; [reflexivity|].
  apply (LoginCommand_views Sample.platform (Sample.world (Some "opaque-token") 0));
    reflexivity.
Defined.

(** X21. For a link whose domain does not start with "www.", every search
    text that the filter of the universe view accepts is accepted by
    [matchesSearch] too: the search command never hides what the universe
    view shows. *)
Theorem universe_filter_matchesSearch (link : KalpaLink) (searchText : string) :
  formatDomain (domain link) = domain link ->
  universe_filter searchText link = true ->
  matchesSearch link searchText = true.
Proof.
  intros Hdomain. unfold universe_filter, matchesSearch.
  destruct (negb (JsString.truthy searchText)); [done|].
  destruct (existsb _ (extractKeywords link)) eqn:Ekw; [done|].
  intros Hfilter. apply orb_prop in Hfilter as [Hfilter|Hdom].
  - apply orb_prop in Hfilter as [-> | ->]; [done|].
    by destruct (JsString.includes (JsString.toLowerCase (title link)) _).
  - exfalso.
    assert (existsb (fun k => JsString.includes k (JsString.toLowerCase searchText))
              (extractKeywords link) = true) as Hex; [|congruence].
    apply existsb_exists. exists (JsString.toLowerCase (domain link)).
    split; [|exact Hdom].
    apply list_elem_of_In, elem_of_extractKeywords. right. left. by rewrite Hdomain.
Qed.

Lemma universe_filter_matchesSearch_witness :
  universe_filter "EXAMPLE.org" Demo.docs_link = true /\
  matchesSearch Demo.docs_link "EXAMPLE.org" = true.
Proof.
  split; [reflexivity|].
  apply (universe_filter_matchesSearch Demo.docs_link "EXAMPLE.org"); reflexivity.
Defined.

(** ** The page to save *)

Example split_on_tab : split_on "|||" "https://a.b/ ||| A | B" = ["https://a.b/ "; " A | B"].
Proof. reflexivity. Qed.

Example split_on_overlap : split_on "|||" "a||||b|||" = ["a"; "|b"; ""].
Proof. reflexivity. Qed.

Example split_on_none : split_on "|||" "no separator" = ["no separator"].
Proof. reflexivity. Qed.





(** ** Narrowing a search *)

Lemma prefix_cons a n b h :
  String.prefix (String a n) (String b h) = if ascii_dec a b then String.prefix n h else false.
Proof. reflexivity. Qed.

Lemma prefix_iff n h : String.prefix n h = true <-> exists b, h = (n ++ b)%string.
Proof.
  revert h. induction n as [|a n IH]; intros h.
  - split; [intros _; by exists h|]. intros _. by destruct h.
  - destruct h as [|b h]; [split; [done|intros (? & [=])]|].
    rewrite prefix_cons. destruct (ascii_dec a b) as [<-|Hne].
    + rewrite IH. split; intros (t & Ht); exists t.
      * by rewrite append_cons, Ht.
      * rewrite append_cons in Ht. by injection Ht.
    + split; [done|]. intros (t & Ht). rewrite append_cons in Ht. by injection Ht.
Qed.

Lemma includes_cons c h n :
  JsString.includes (String c h) n = String.prefix n (String c h) || JsString.includes h n.
Proof. reflexivity. Qed.

Lemma includes_iff h n :
  JsString.includes h n = true <-> exists a b, h = (a ++ n ++ b)%string.
Proof.
  split.
  - induction h as [|c h IH].
    + change (JsString.includes EmptyString n) with (String.prefix n EmptyString || false).
      rewrite orb_false_r, prefix_iff. intros (b & Hb). by exists EmptyString, b.
    + rewrite includes_cons. intros Hinc. apply orb_prop in Hinc as [Hpre|Hrest].
      * apply prefix_iff in Hpre as (b & Hb). by exists EmptyString, b.
      * destruct (IH Hrest) as (a & b & ->). by exists (String c a), b.
  - intros (a & b & ->). induction a as [|c a IH].
    + change (EmptyString ++ n ++ b)%string with (n ++ b)%string.
      assert (Hpre : String.prefix n (n ++ b) = true) by (apply prefix_iff; by exists b).
      destruct (n ++ b)%string; cbn [JsString.includes]; by rewrite Hpre.
    + rewrite append_cons, includes_cons, IH. apply orb_true_r.
Qed.

Lemma includes_trans h n m :
  JsString.includes h n = true -> JsString.includes n m = true ->
  JsString.includes h m = true.
Proof.
  rewrite !includes_iff. intros (a & b & ->) (c & d & ->).
  exists (a ++ c)%string, (d ++ b)%string. by rewrite !append_assoc.
Qed.

(** X23. Typing more never adds results: if [matchesSearch] accepts a link
    for a search text, it accepts it for every text contained in that one,
    case being ignored; in particular the answer does not depend on the case
    of the search text. *)
Theorem matchesSearch_narrowing (link : KalpaLink) (query shorter : string) :
  JsString.includes (JsString.toLowerCase query) (JsString.toLowerCase shorter) = true ->
  (matchesSearch link query = true -> matchesSearch link shorter = true) /\
  matchesSearch link (JsString.toLowerCase query) = matchesSearch link query.
Proof.
  intros Hsub. split.
  - unfold matchesSearch. rewrite <- (toLowerCase_truthy query), <- (toLowerCase_truthy shorter).
    set (q := JsString.toLowerCase query) in *.
    set (s := JsString.toLowerCase shorter) in *.
    destruct (JsString.truthy s) eqn:Hs; [|done]. cbn [negb].
    assert (Hq : JsString.truthy q = true).
    { destruct q; [|done]. by destruct s. }
    rewrite Hq. cbn [negb].
    assert (Hnarrow : forall hay, JsString.includes hay q = true ->
                                  JsString.includes hay s = true).
    { intros hay Hhay. by apply (includes_trans hay q s). }
    destruct (existsb (fun k => JsString.includes k q) (extractKeywords link)) eqn:Ekw.
    { apply existsb_exists in Ekw as (k & Hk & Hinc).
      assert (existsb (fun k => JsString.includes k s) (extractKeywords link) = true) as ->;
        [|done].
      apply existsb_exists. exists k. split; [done|by apply Hnarrow]. }
    destruct (existsb (fun k => JsString.includes k s) (extractKeywords link)); [done|].
    destruct (JsString.includes (JsString.toLowerCase (title link)) q) eqn:Et.
    { by rewrite (Hnarrow _ Et). }
    destruct (JsString.includes (JsString.toLowerCase (title link)) s); [done|].
    destruct (JsString.includes (JsString.toLowerCase (url link)) q) eqn:Eu.
    { by rewrite (Hnarrow _ Eu). }
    destruct (JsString.includes (JsString.toLowerCase (url link)) s); [done|].
    destruct (summary_preview link) as [p|]; [|done].
    destruct (JsString.includes (JsString.toLowerCase p) q) eqn:Ep; [|done].
    by rewrite (Hnarrow _ Ep).
  - unfold matchesSearch. by rewrite toLowerCase_truthy, toLowerCase_idem.
Qed.

Lemma matchesSearch_narrowing_witness :
  matchesSearch Demo.docs_link "Release NOTES" = true /\
  matchesSearch Demo.docs_link "lease no" = true.
Proof.
  split; [reflexivity|].
  apply (matchesSearch_narrowing Demo.docs_link "Release NOTES" "lease no"); reflexivity.
Defined.
